(** * Bricks: a 0/1 integer program built with PuLP

    Shallow embedding of [PuLP/BricksLinear.ipynb].  The notebook is a
    straight-line script over the globals [bricks], [XSIZE], [YSIZE],
    [positions], [v], [m], [penalties] and [pairs]; here the script is a
    function of the problem description (the two sizes, the list of
    bricks and the list of same-colour pairs), and the notebook's own
    data are the [nb_...] definitions further down.

    Python integers are [Z]; the two grid sizes are [nat] (a width and a
    height).  Dictionaries are [gmap]s and a missing key raises
    [KeyError], so everything that subscripts a dictionary lives in the
    [result] monad.  An affine expression is kept as its list of terms,
    a repeated variable as repeated terms; its value is the same as with
    PuLP's merged coefficients.  Values of solved variables are taken to
    be integers, as [cat = LpInteger] asks of the solver. *)

From stdpp Require Import gmap strings list list_numbers pretty.

Local Open Scope Z_scope.

(** ** Python: exceptions, subscripts, [range], loops *)

Inductive key :=
  | IntKey (n : Z)
  | StrKey (s : string)
  | TupleKey (x rb : Z).

Inductive exn :=
  | KeyError (k : key).

Inductive result (A : Type) :=
  | Ok (a : A)
  | Raise (e : exn).
Global Arguments Ok {A} a.
Global Arguments Raise {A} e.

Global Instance result_ret : MRet result := λ A a, Ok a.
Global Instance result_bind : MBind result := λ A B f r,
  match r with
  | Ok a => f a
  | Raise e => Raise e
  end.

Class Key (K : Type) := to_key : K → key.
Global Instance int_is_key : Key Z := IntKey.
Global Instance str_is_key : Key string := StrKey.
Global Instance tuple_is_key : Key (Z * Z) := λ p, TupleKey p.1 p.2.

(** [d[k]] *)
Definition getitem `{Countable K, Key K} {V} (d : gmap K V) (k : K) : result V :=
  match d !! k with
  | Some x => Ok x
  | None => Raise (KeyError (to_key k))
  end.

(** [range(n)] *)
Definition range (n : nat) : list Z := seqZ 0 (Z.of_nat n).

(** [str(n)], as [format] renders an integer *)
Definition str (n : Z) : string :=
  match n with
  | Z0 => "0"
  | Zpos p => pretty (Npos p)
  | Zneg p => "-" +:+ pretty (Npos p)
  end.

(** [for i in l: s = body(s, i)], stopping at the first exception *)
Fixpoint for_each {A S} (l : list A) (body : S → A → result S) (s : S) : result S :=
  match l with
  | [] => Ok s
  | i :: l => s' ← body s i; for_each l body s'
  end.

Definition tab : string := String (Ascii.ascii_of_nat 9) EmptyString.

(** ** PuLP: variables, affine expressions, constraints, problems *)

Inductive LpCategory := LpContinuous | LpInteger.

(** A variable made by [LpVariable.dicts] is identified by its path of
    indices (PuLP compares variables by identity, and there is one object
    per path in the nested dictionary). *)
Record LpVariable := LpVar {
  var_x : Z;
  var_y : Z;
  var_brick : string;
  var_rb : Z;
  lowBound : Z;
  upBound : Z;
  cat : LpCategory
}.

Global Instance LpCategory_eq_dec : EqDecision LpCategory.
Proof. solve_decision. Defined.
Global Instance LpVariable_eq_dec : EqDecision LpVariable.
Proof. solve_decision. Defined.

(** [for i in index: d[i] = f(i)] from the empty dictionary *)
Definition dict_of `{Countable K} {V} (index : list K) (f : K → V) : gmap K V :=
  foldl (λ d i, <[i := f i]> d) ∅ index.

(** [LpVariable.dicts(name, (i1, i2, i3, i4), lowBound, upBound, cat)] *)
Definition LpVariable_dicts (i1 i2 : list Z) (i3 : list string) (i4 : list Z)
    (lo up : Z) (c : LpCategory) : gmap Z (gmap Z (gmap string (gmap Z LpVariable))) :=
  dict_of i1 (λ x, dict_of i2 (λ y, dict_of i3 (λ b, dict_of i4 (λ rb,
    LpVar x y b rb lo up c)))).

(** A sum of terms [coefficient * variable] *)
Definition LpAffineExpression := list (Z * LpVariable).

Definition var_expr (var : LpVariable) : LpAffineExpression := [(1, var)].
Definition neg_expr (var : LpVariable) : LpAffineExpression := [(-1, var)].
Definition mul_expr (c : Z) (var : LpVariable) : LpAffineExpression := [(c, var)].
Definition lpSum (es : list LpAffineExpression) : LpAffineExpression := concat es.

Inductive LpConstraintSense := LpConstraintLE | LpConstraintEQ | LpConstraintGE.

Record LpConstraint := LpCons {
  lhs : LpAffineExpression;
  csense : LpConstraintSense;
  rhs : Z
}.

Inductive LpSense := LpMinimize | LpMaximize.

Record LpProblem := LpProb {
  pname : string;
  psense : LpSense;
  objective : LpAffineExpression;
  constraints : list LpConstraint
}.

Definition new_LpProblem (name : string) (s : LpSense) : LpProblem :=
  LpProb name s [] [].

(** [m += e] for an affine expression sets the objective *)
Definition iadd_objective (m : LpProblem) (e : LpAffineExpression) : LpProblem :=
  LpProb (pname m) (psense m) e (constraints m).

(** [m += c] for a constraint appends it *)
Definition iadd_constraint (m : LpProblem) (c : LpConstraint) : LpProblem :=
  LpProb (pname m) (psense m) (objective m) (constraints m ++ [c]).

(** Sum of [f] over a list *)
Definition sumZ {A} (f : A → Z) (l : list A) : Z := foldr (λ x s, f x + s) 0 l.

(** Value of an expression, and truth of a constraint, under an assignment *)
Definition eval (a : LpVariable → Z) (e : LpAffineExpression) : Z :=
  sumZ (λ t, t.1 * a t.2) e.

Definition holds (a : LpVariable → Z) (c : LpConstraint) : Prop :=
  match csense c with
  | LpConstraintLE => eval a (lhs c) ≤ rhs c
  | LpConstraintEQ => eval a (lhs c) = rhs c
  | LpConstraintGE => rhs c ≤ eval a (lhs c)
  end.

Global Instance holds_dec a c : Decision (holds a c).
Proof. unfold holds. destruct (csense c); apply _. Defined.

(** [m.variables()]: the variables of the objective and of the constraints *)
Definition variables (m : LpProblem) : list LpVariable :=
  remove_dups (((objective m) ++ (constraints m ≫= lhs)).*2).

Definition in_bounds (a : LpVariable → Z) (var : LpVariable) : Prop :=
  lowBound var ≤ a var ≤ upBound var.

(** A feasible assignment respects every variable's bounds and every
    constraint. *)
Definition feasible (m : LpProblem) (a : LpVariable → Z) : Prop :=
  Forall (in_bounds a) (variables m) ∧ Forall (holds a) (constraints m).

Global Instance feasible_dec m a : Decision (feasible m a).
Proof. unfold feasible, in_bounds. apply _. Defined.

(** ** The notebook *)

Section Bricks.
Context (XSIZE YSIZE : nat) (bricks : list string) (pairs : list (string * string)).

(** [positions = [(x,y) for x in range(XSIZE) for y in range(YSIZE)]] *)
Definition positions : list (Z * Z) :=
  x ← range XSIZE; y ← range YSIZE; [(x, y)].

(** Step 1: the model variables *)
Definition v : gmap Z (gmap Z (gmap string (gmap Z LpVariable))) :=
  LpVariable_dicts (range XSIZE) (range YSIZE) bricks (range XSIZE) 0 1 LpInteger.

(** [v[x][y][b][rb]] *)
Definition v_at (x y : Z) (b : string) (rb : Z) : result LpVariable :=
  d ← getitem v x; d ← getitem d y; d ← getitem d b; getitem d rb.

(** Step 2: the optimization function *)
Definition m0 : LpProblem := new_LpProblem "Bricks" LpMinimize.

Definition penalties : gmap (Z * Z) Z :=
  foldl (λ d x,
    foldl (λ d rb, <[(x, rb) := 10 * Z.abs (rb - x)]> d) d (range XSIZE))
    ∅ (range XSIZE).

Definition add_objective (m : LpProblem) : result LpProblem :=
  terms ← mapM (λ '(x, y, b, rb),
                  c ← getitem penalties (x, rb);
                  var ← v_at x y b rb;
                  mret (mul_expr c var))
               ('(x, y) ← positions; b ← bricks; rb ← range XSIZE; [(x, y, b, rb)]);
  mret (iadd_objective m (lpSum terms)).

(** Condition 1: one brick per position *)
Definition condition1 (m : LpProblem) : result LpProblem :=
  for_each positions (λ m '(x, y),
    vars ← mapM (λ '(b, rb), v_at x y b rb)
                (b ← bricks; rb ← range XSIZE; [(b, rb)]);
    mret (iadd_constraint m (LpCons (lpSum (var_expr <$> vars)) LpConstraintLE 1))) m.

(** Condition 2: one position per brick *)
Definition condition2 (m : LpProblem) : result LpProblem :=
  for_each bricks (λ m b,
    vars ← mapM (λ '(x, y, rb), v_at x y b rb)
                ('(x, y) ← positions; rb ← range XSIZE; [(x, y, rb)]);
    mret (iadd_constraint m (LpCons (lpSum (var_expr <$> vars)) LpConstraintEQ 1))) m.

(** Condition 3: no bricks right of the rb column *)
Definition condition3 (m : LpProblem) : result LpProblem :=
  for_each (range XSIZE) (λ m x,
    for_each (range XSIZE) (λ m rb,
      if decide (x > rb) then
        vars ← mapM (λ '(y, b), v_at x y b rb)
                    (y ← range YSIZE; b ← bricks; [(y, b)]);
        mret (iadd_constraint m (LpCons (lpSum (var_expr <$> vars)) LpConstraintEQ 0))
      else mret m) m) m.

(** Condition 4: bricks of same colour stick together *)
Definition condition4 (m : LpProblem) : result LpProblem :=
  for_each pairs (λ m '(b1, b2),
    for_each (range XSIZE) (λ m rb,
      plus ← mapM (λ '(x, y), var ← v_at x y b1 rb; mret (var_expr var)) positions;
      minus ← mapM (λ '(x, y), var ← v_at x y b2 rb; mret (neg_expr var)) positions;
      mret (iadd_constraint m (LpCons (lpSum (plus ++ minus)) LpConstraintEQ 0))) m) m.

(** Steps 1 to 3, up to (not including) [m.solve()] *)
Definition build : result LpProblem :=
  m ← add_objective m0;
  m ← condition1 m;
  m ← condition2 m;
  m ← condition3 m;
  condition4 m.

(** Display the result: the lines printed, given [value] *)
Definition display (value : LpVariable → Z) : result (list string) :=
  for_each (range YSIZE) (λ out y,
    row ← for_each (range XSIZE) (λ row x,
      row ← for_each bricks (λ row b,
        for_each (range XSIZE) (λ row rb,
          var ← v_at x y b rb;
          let val := value var in
          if decide (val = 1)
          then mret (row +:+ (b +:+ "[" +:+ str rb +:+ "]"))
          else mret row) row) row;
      mret (row +:+ tab)) "";
    mret (out ++ [row])) [].
End Bricks.

(** The variable at a path of indices, as [v] holds it *)
Definition brick_var (x y : Z) (b : string) (rb : Z) : LpVariable :=
  LpVar x y b rb 0 1 LpInteger.

(** Values of a dictionary, and the variables held in a nested [v] *)
Definition dict_values `{Countable K} {V} (d : gmap K V) : list V := (map_to_list d).*2.

Definition v_variables (d : gmap Z (gmap Z (gmap string (gmap Z LpVariable)))) :
    list LpVariable :=
  d1 ← dict_values d; d2 ← dict_values d1; d3 ← dict_values d2; dict_values d3.

(** ** The program in closed form

    The four constraint families and the objective as section 4.1 of the
    specification lists them, to be compared with what [build] returns. *)

Section Program.
Context (XSIZE YSIZE : nat) (bricks : list string) (pairs : list (string * string)).

Definition penalty (x rb : Z) : Z := 10 * Z.abs (rb - x).

(** The index lists of the comprehensions *)
Definition tuples : list (Z * Z * string * Z) :=
  '(x, y) ← positions XSIZE YSIZE; b ← bricks; rb ← range XSIZE; [(x, y, b, rb)].
Definition candidates : list (string * Z) :=
  b ← bricks; rb ← range XSIZE; [(b, rb)].
Definition places : list (Z * Z * Z) :=
  '(x, y) ← positions XSIZE YSIZE; rb ← range XSIZE; [(x, y, rb)].
Definition column : list (Z * string) :=
  y ← range YSIZE; b ← bricks; [(y, b)].

Definition objective_terms : LpAffineExpression :=
  (λ t, (penalty t.1.1.1 t.2, brick_var t.1.1.1 t.1.1.2 t.1.2 t.2)) <$> tuples.

Definition occupancy : list LpConstraint :=
  '(x, y) ← positions XSIZE YSIZE;
  [LpCons ((λ c, (1, brick_var x y c.1 c.2)) <$> candidates) LpConstraintLE 1].

Definition placement : list LpConstraint :=
  b ← bricks;
  [LpCons ((λ t, (1, brick_var t.1.1 t.1.2 b t.2)) <$> places) LpConstraintEQ 1].

Definition boundary : list LpConstraint :=
  x ← range XSIZE; rb ← range XSIZE;
  if decide (x > rb)
  then [LpCons ((λ c, (1, brick_var x c.1 c.2 rb)) <$> column) LpConstraintEQ 0]
  else [].

Definition cohesion_constraint (b1 b2 : string) (rb : Z) : LpConstraint :=
  LpCons (((λ p, (1, brick_var p.1 p.2 b1 rb)) <$> positions XSIZE YSIZE) ++
          ((λ p, (-1, brick_var p.1 p.2 b2 rb)) <$> positions XSIZE YSIZE))
         LpConstraintEQ 0.

Definition cohesion : list LpConstraint :=
  '(b1, b2) ← pairs; rb ← range XSIZE; [cohesion_constraint b1 b2 rb].

Definition program : LpProblem :=
  LpProb "Bricks" LpMinimize objective_terms
         (occupancy ++ placement ++ boundary ++ cohesion).

(** The description is malformed in the sense of the specification *)
Definition unknown_pair (bb : string * string) : Prop :=
  bb.1 ∉ bricks ∨ bb.2 ∉ bricks.

Definition malformed : Prop :=
  ¬ NoDup bricks ∨ Exists unknown_pair pairs ∨
  (XSIZE * YSIZE < length bricks)%nat.

(** *** Reading an assignment *)
Context (a : LpVariable → Z).

(** The (brick, rb) candidates of a cell whose variable is 1, in the
    order the display loop visits them *)
Definition hits (x y : Z) : list (string * Z) :=
  filter (λ c, a (brick_var x y c.1 c.2) = 1) candidates.

(** The cell of a brick: the first position with a variable of the
    brick equal to 1 *)
Definition cell_of (b : string) : option (Z * Z) :=
  snd <$> list_find (λ p, Exists (λ rb, a (brick_var p.1 p.2 b rb) = 1) (range XSIZE))
                    (positions XSIZE YSIZE).

Definition cells : list (Z * Z) := omap cell_of bricks.

(** [Σ_{x,y} v[x][y][b][rb]], and the anchor column of a brick: the
    first [rb] for which that sum is 1 *)
Definition column_sum (b : string) (rb : Z) : Z :=
  sumZ (λ p, a (brick_var p.1 p.2 b rb)) (positions XSIZE YSIZE).

Definition anchor_of (b : string) : option Z :=
  snd <$> list_find (λ rb, column_sum b rb = 1) (range XSIZE).

(** The placement of the Result Extractor: the (brick, rb) of a cell *)
Definition placement_at (x y : Z) : option (string * Z) :=
  snd <$> list_find (λ c, a (brick_var x y c.1 c.2) = 1) candidates.

Definition fmt (c : string * Z) : string := c.1 +:+ "[" +:+ str c.2 +:+ "]".

Definition render (c : option (string * Z)) : string :=
  match c with
  | Some c => fmt c
  | None => ""
  end.

Definition join (l : list string) : string := foldr String.append "" l.

(** What the display loop prints, in closed form: every hit of a cell,
    then a tab *)
Definition printed_lines : list string :=
  (λ y, join ((λ x, join (fmt <$> hits x y) +:+ tab) <$> range XSIZE)) <$> range YSIZE.

(** The same for an assignment with at most one hit per cell *)
Definition grid_lines : list string :=
  (λ y, join ((λ x, render (placement_at x y) +:+ tab) <$> range XSIZE)) <$> range YSIZE.

(** The grid in the words of the specification: the cells of a row
    separated by tabs *)
Definition tab_separated_grid : list string :=
  (λ y, String.concat tab ((λ x, render (placement_at x y)) <$> range XSIZE))
    <$> range YSIZE.

Definition objective_value (m : LpProblem) : Z := eval a (objective m).
End Program.

(** One variable per path of indices, a repeated brick counted once *)
Definition domain_variables (X Y : nat) (bricks : list string) : list LpVariable :=
  x ← range X; y ← range Y; b ← remove_dups bricks; brick_var x y b <$> range X.

(** Several constraints added at once *)
Definition add_constraints (m : LpProblem) (cs : list LpConstraint) : LpProblem :=
  LpProb (pname m) (psense m) (objective m) (constraints m ++ cs).

Global Instance unknown_pair_dec bricks bb : Decision (unknown_pair bricks bb).
Proof. unfold unknown_pair. apply _. Defined.

(** The body of the inner loop of Condition 4, for one pair and one [rb] *)
Definition cohesion_body (X Y : nat) (bricks : list string) (b1 b2 : string) :
    LpProblem → Z → result LpProblem := λ m rb,
  plus ← mapM (λ '(x, y), var ← v_at X Y bricks x y b1 rb; mret (var_expr var))
              (positions X Y);
  minus ← mapM (λ '(x, y), var ← v_at X Y bricks x y b2 rb; mret (neg_expr var))
               (positions X Y);
  mret (iadd_constraint m (LpCons (lpSum (plus ++ minus)) LpConstraintEQ 0)).

(** ** Colours *)

Definition is_letter (c : Ascii.ascii) : bool :=
  let n := Ascii.nat_of_ascii c in
  ((65 <=? n) && (n <=? 90) || (97 <=? n) && (n <=? 122))%nat.

Fixpoint letter_prefix (s : string) : string :=
  match s with
  | String c s' => if is_letter c then String c (letter_prefix s') else EmptyString
  | EmptyString => EmptyString
  end.

(** All unordered pairs of a list, each written in list order *)
Fixpoint unordered_pairs {A} (l : list A) : list (A * A) :=
  match l with
  | [] => []
  | x :: l' => ((λ y, (x, y)) <$> l') ++ unordered_pairs l'
  end.

Definition same_prefix_pairs (l : list string) : list (string * string) :=
  filter (λ bb, letter_prefix bb.1 = letter_prefix bb.2) (unordered_pairs l).

(** ** The notebook's data *)

Definition nb_bricks : list string :=
  ["a1"; "a2"; "a3"; "b1"; "b2"; "c1"; "c2"; "c3"; "c4"; "d1"; "d2"; "e1"].

Definition nb_XSIZE : nat := 4.
Definition nb_YSIZE : nat := 3.

Definition nb_pairs : list (string * string) :=
  [("a1", "a2"); ("a1", "a3"); ("a2", "a3");
   ("b1", "b2");
   ("c1", "c2"); ("c1", "c3"); ("c2", "c3"); ("c1", "c4"); ("c2", "c4"); ("c3", "c4");
   ("d1", "d2")].

(** The output recorded in the notebook, as (x, y, brick, rb), and the
    assignment it shows: these variables are 1, all others 0 *)
Definition nb_output : list (Z * Z * string * Z) :=
  [(0, 0, "b2", 0); (1, 0, "a3", 1); (2, 0, "d1", 2); (3, 0, "c1", 3);
   (0, 1, "e1", 0); (1, 1, "a1", 1); (2, 1, "d2", 2); (3, 1, "c2", 3);
   (0, 2, "b1", 0); (1, 2, "a2", 1); (2, 2, "c3", 3); (3, 2, "c4", 3)].

Definition nb_value (var : LpVariable) : Z :=
  if decide ((var_x var, var_y var, var_brick var, var_rb var) ∈ nb_output) then 1 else 0.

(** An assignment that breaks Occupancy: every variable is 1 *)
Definition all_ones : LpVariable → Z := λ _, 1.

(** The output recorded in the notebook, line by line *)
Definition nb_stdout : list string :=
  [join ["b2[0]"; tab; "a3[1]"; tab; "d1[2]"; tab; "c1[3]"; tab];
   join ["e1[0]"; tab; "a1[1]"; tab; "d2[2]"; tab; "c2[3]"; tab];
   join ["b1[0]"; tab; "a2[1]"; tab; "c3[3]"; tab; "c4[3]"; tab]].

Definition nb_program : LpProblem := program nb_XSIZE nb_YSIZE nb_bricks nb_pairs.


(** ** Reading and writing placements *)

(** What a brick adds to the objective: ten per column between its cell
    and its anchor *)
Definition brick_cost (X Y : nat) (a : LpVariable → Z) (b : string) : Z :=
  match cell_of X Y a b, anchor_of X Y a b with
  | Some (x, _), Some rb => 10 * (rb - x)
  | _, _ => 0
  end.

(** The assignment that places every brick [b] on cell [(pl b).1] with
    anchor [(pl b).2] *)
Definition placement_assignment (pl : string → Z * Z * Z) : LpVariable → Z :=
  λ var, if decide (pl (var_brick var) = (var_x var, var_y var, var_rb var))
         then 1 else 0.

(** A placement: distinct bricks on distinct cells of the grid, each at
    or left of its anchor column, the two bricks of a pair on one anchor *)
Definition valid_placement (X Y : nat) (bricks : list string)
    (pairs : list (string * string)) (pl : string → Z * Z * Z) : Prop :=
  NoDup bricks ∧
  Forall (λ b, (pl b).1 ∈ positions X Y ∧ (pl b).2 ∈ range X ∧ (pl b).1.1 ≤ (pl b).2)
         bricks ∧
  Forall (λ b1, Forall (λ b2, (pl b1).1 = (pl b2).1 → b1 = b2) bricks) bricks ∧
  (positions X Y = [] ∨
   Forall (λ bb, bb.1 ∈ bricks ∧ bb.2 ∈ bricks ∧ (pl bb.1).2 = (pl bb.2).2) pairs).

Global Instance valid_placement_dec X Y bricks pairs pl :
  Decision (valid_placement X Y bricks pairs pl).
Proof. unfold valid_placement. apply _. Defined.

(** The [i]-th brick on the [i]-th position, every anchor the last column *)
Definition default_placement (X Y : nat) (bricks : list string) (b : string) :
    Z * Z * Z :=
  match list_find (λ b', b' = b) bricks with
  | Some (i, _) =>
      match positions X Y !! i with
      | Some p => (p, Z.of_nat X - 1)
      | None => (0, 0, 0)
      end
  | None => (0, 0, 0)
  end.

(** The placement the notebook's recorded output shows *)
Definition nb_placement (b : string) : Z * Z * Z :=
  match list_find (λ t : Z * Z * string * Z, t.1.2 = b) nb_output with
  | Some (_, t) => (t.1.1.1, t.1.1.2, t.2)
  | None => (0, 0, 0)
  end.

Global Instance malformed_dec X Y bricks pairs : Decision (malformed X Y bricks pairs).
Proof. unfold malformed. apply _. Defined.

(** Closed goals about the notebook's data are settled by evaluation. *)
Local Ltac by_evaluation :=
  lazymatch goal with
  | |- _ = _ => vm_compute; reflexivity
  | |- _ => apply (bool_decide_unpack _); vm_compute; exact I
  end.

(** * Properties *)

(** ** Ranges and index lists *)

Lemma elem_of_range n x : x ∈ range n ↔ 0 ≤ x < Z.of_nat n.
Proof. unfold range. rewrite elem_of_seqZ. lia. Qed.

Lemma NoDup_range n : NoDup (range n).
Proof. apply NoDup_seqZ. Qed.

Lemma length_range n : length (range n) = n.
Proof. unfold range. rewrite length_seqZ. lia. Qed.

Lemma range_0 : range 0 = [].
Proof. done. Qed.

Lemma range_S n : range (S n) = 0 :: seqZ 1 (Z.of_nat n).
Proof.
  unfold range. rewrite seqZ_cons by lia. do 2 f_equal. lia.
Qed.

Lemma elem_of_positions X Y x y :
  (x, y) ∈ positions X Y ↔ x ∈ range X ∧ y ∈ range Y.
Proof.
  unfold positions. rewrite list_elem_of_bind. split.
  - intros (x' & Hy & Hx). apply list_elem_of_bind in Hy as (y' & Heq & Hy).
    apply list_elem_of_singleton in Heq. by simplify_eq.
  - intros [Hx Hy]. exists x. split; [|done].
    apply list_elem_of_bind. exists y. split; [|done]. by apply list_elem_of_singleton.
Qed.

Lemma positions_nil X Y : positions X Y = [] ↔ X = 0%nat ∨ Y = 0%nat.
Proof.
  split.
  - intros Hnil. destruct X as [|X]; [by left|]. destruct Y as [|Y]; [by right|].
    assert ((0, 0) ∈ positions (S X) (S Y)) as Hin.
    { apply elem_of_positions. rewrite !elem_of_range. lia. }
    rewrite Hnil in Hin. by apply not_elem_of_nil in Hin.
  - intros [-> | ->]; [done|].
    unfold positions. rewrite range_0. induction (range X); [done|]. done.
Qed.

(** ** The [result] monad and loops *)

Lemma bind_Ok {A B} (f : A → result B) a : Ok a ≫= f = f a.
Proof. done. Qed.

Lemma mapM_Ok {A B} (f : A → result B) (g : A → B) l :
  (∀ x, x ∈ l → f x = Ok (g x)) → mapM f l = Ok (g <$> l).
Proof.
  induction l as [|x l IH]; intros Hf; [done|]. simpl.
  rewrite (Hf x) by left. simpl. rewrite IH; [done|].
  intros z Hz. apply Hf. by right.
Qed.

Lemma add_constraints_nil m : add_constraints m [] = m.
Proof. destruct m. unfold add_constraints. simpl. by rewrite app_nil_r. Qed.

Lemma add_constraints_app m cs1 cs2 :
  add_constraints (add_constraints m cs1) cs2 = add_constraints m (cs1 ++ cs2).
Proof. unfold add_constraints. simpl. by rewrite app_assoc. Qed.

Lemma iadd_constraint_add m c : iadd_constraint m c = add_constraints m [c].
Proof. done. Qed.

(** A loop whose body adds constraints adds the constraints of every
    iteration, in order. *)
Lemma for_each_add {A} (body : LpProblem → A → result LpProblem)
    (g : A → list LpConstraint) l m :
  (∀ m x, x ∈ l → body m x = Ok (add_constraints m (g x))) →
  for_each l body m = Ok (add_constraints m (l ≫= g)).
Proof.
  revert m. induction l as [|x l IH]; intros m Hbody; simpl.
  - by rewrite add_constraints_nil.
  - rewrite Hbody by left. simpl. rewrite IH.
    + by rewrite add_constraints_app.
    + intros m' z Hz. apply Hbody. by right.
Qed.

(** ** Dictionaries *)

Lemma lookup_foldl_insert `{Countable K} {V} (index : list K) (f : K → V)
    (d : gmap K V) k :
  foldl (λ d i, <[i := f i]> d) d index !! k =
  if decide (k ∈ index) then Some (f k) else d !! k.
Proof.
  revert d. induction index as [|i index IH]; intros d.
  - destruct (decide (k ∈ [])) as [Hin|]; [by apply not_elem_of_nil in Hin|done].
  - cbn [foldl]. rewrite IH.
    destruct (decide (k ∈ index)) as [Hin|Hin];
      destruct (decide (k ∈ i :: index)) as [Hin'|Hin'].
    + done.
    + exfalso. apply Hin'. by right.
    + apply elem_of_cons in Hin' as [->|?]; [by rewrite lookup_insert_eq|done].
    + rewrite lookup_insert_ne; [done|]. intros ->. apply Hin'. by left.
Qed.

Lemma lookup_dict_of `{Countable K} {V} (index : list K) (f : K → V) k :
  dict_of index f !! k = if decide (k ∈ index) then Some (f k) else None.
Proof. unfold dict_of. by rewrite lookup_foldl_insert, lookup_empty. Qed.

Lemma getitem_dict_of `{Countable K, Key K} {V} (index : list K) (f : K → V) k :
  getitem (dict_of index f) k =
  if decide (k ∈ index) then Ok (f k) else Raise (KeyError (to_key k)).
Proof. unfold getitem. rewrite lookup_dict_of. by case_decide. Qed.

Lemma v_at_Ok X Y bricks x y b rb :
  x ∈ range X → y ∈ range Y → b ∈ bricks → rb ∈ range X →
  v_at X Y bricks x y b rb = Ok (brick_var x y b rb).
Proof.
  intros Hx Hy Hb Hrb. unfold v_at, v, LpVariable_dicts.
  rewrite getitem_dict_of, decide_True by done. simpl.
  rewrite getitem_dict_of, decide_True by done. simpl.
  rewrite getitem_dict_of, decide_True by done. simpl.
  by rewrite getitem_dict_of, decide_True by done.
Qed.

Lemma v_at_unknown X Y bricks x y b rb :
  x ∈ range X → y ∈ range Y → b ∉ bricks →
  v_at X Y bricks x y b rb = Raise (KeyError (StrKey b)).
Proof.
  intros Hx Hy Hb. unfold v_at, v, LpVariable_dicts.
  rewrite getitem_dict_of, decide_True by done. simpl.
  rewrite getitem_dict_of, decide_True by done. simpl.
  by rewrite getitem_dict_of, decide_False by done.
Qed.

Lemma lookup_penalties_row (x : Z) (index : list Z) (d : gmap (Z * Z) Z) x' rb' :
  foldl (λ d rb, <[(x, rb) := 10 * Z.abs (rb - x)]> d) d index !! (x', rb') =
  if decide (x' = x ∧ rb' ∈ index) then Some (penalty x' rb') else d !! (x', rb').
Proof.
  revert d. induction index as [|rb index IH]; intros d.
  - destruct (decide (x' = x ∧ rb' ∈ [])) as [[_ Hin]|]; [|done].
    by apply not_elem_of_nil in Hin.
  - cbn [foldl]. rewrite IH.
    destruct (decide (x' = x ∧ rb' ∈ index)) as [[Hx Hin]|Hin];
      destruct (decide (x' = x ∧ rb' ∈ rb :: index)) as [Hin'|Hin'].
    + done.
    + exfalso. apply Hin'. split; [done|by right].
    + destruct Hin' as [-> [->|?]%elem_of_cons]; [|naive_solver].
      by rewrite lookup_insert_eq.
    + rewrite lookup_insert_ne; [done|]. intros [= -> ->]. apply Hin'.
      split; [done|by left].
Qed.

Lemma lookup_penalties_rows (rows index : list Z) (d : gmap (Z * Z) Z) x' rb' :
  foldl (λ d x, foldl (λ d rb, <[(x, rb) := 10 * Z.abs (rb - x)]> d) d index) d rows
    !! (x', rb') =
  if decide (x' ∈ rows ∧ rb' ∈ index) then Some (penalty x' rb') else d !! (x', rb').
Proof.
  revert d. induction rows as [|x rows IH]; intros d.
  - destruct (decide (x' ∈ [] ∧ rb' ∈ index)) as [[Hin _]|]; [|done].
    by apply not_elem_of_nil in Hin.
  - cbn [foldl]. rewrite IH, lookup_penalties_row.
    destruct (decide (x' ∈ rows ∧ rb' ∈ index)) as [[Hx Hrb]|Hin];
      destruct (decide (x' ∈ x :: rows ∧ rb' ∈ index)) as [Hin'|Hin'].
    + done.
    + exfalso. apply Hin'. split; [by right|done].
    + destruct Hin' as [[->|?]%elem_of_cons ?]; [|naive_solver].
      by rewrite decide_True by done.
    + rewrite decide_False; [done|]. intros [-> ?]. apply Hin'. split; [by left|done].
Qed.

Lemma lookup_penalties X x rb :
  penalties X !! (x, rb) =
  if decide (x ∈ range X ∧ rb ∈ range X) then Some (penalty x rb) else None.
Proof. unfold penalties. by rewrite lookup_penalties_rows, lookup_empty. Qed.

(** ** What [build] returns *)

Lemma elem_of_candidates X bricks b rb :
  (b, rb) ∈ candidates X bricks ↔ b ∈ bricks ∧ rb ∈ range X.
Proof.
  unfold candidates. rewrite list_elem_of_bind. split.
  - intros (b' & Hrb & Hb). apply list_elem_of_bind in Hrb as (rb' & Heq & Hrb).
    apply list_elem_of_singleton in Heq. by simplify_eq.
  - intros [Hb Hrb]. exists b. split; [|done].
    apply list_elem_of_bind. exists rb. split; [|done]. by apply list_elem_of_singleton.
Qed.

Lemma elem_of_places X Y x y rb :
  (x, y, rb) ∈ places X Y ↔ (x, y) ∈ positions X Y ∧ rb ∈ range X.
Proof.
  unfold places. rewrite list_elem_of_bind. split.
  - intros ([x' y'] & Hrb & Hp). apply list_elem_of_bind in Hrb as (rb' & Heq & Hrb).
    apply list_elem_of_singleton in Heq. by simplify_eq.
  - intros [Hp Hrb]. exists (x, y). split; [|done].
    apply list_elem_of_bind. exists rb. split; [|done]. by apply list_elem_of_singleton.
Qed.

Lemma elem_of_column Y bricks y b :
  (y, b) ∈ column Y bricks ↔ y ∈ range Y ∧ b ∈ bricks.
Proof.
  unfold column. rewrite list_elem_of_bind. split.
  - intros (y' & Hb & Hy). apply list_elem_of_bind in Hb as (b' & Heq & Hb).
    apply list_elem_of_singleton in Heq. by simplify_eq.
  - intros [Hy Hb]. exists y. split; [|done].
    apply list_elem_of_bind. exists b. split; [|done]. by apply list_elem_of_singleton.
Qed.

Lemma elem_of_tuples X Y bricks x y b rb :
  (x, y, b, rb) ∈ tuples X Y bricks ↔
  (x, y) ∈ positions X Y ∧ b ∈ bricks ∧ rb ∈ range X.
Proof.
  unfold tuples. rewrite list_elem_of_bind. split.
  - intros ([x' y'] & Hb & Hp). apply list_elem_of_bind in Hb as (b' & Hrb & Hb).
    apply list_elem_of_bind in Hrb as (rb' & Heq & Hrb).
    apply list_elem_of_singleton in Heq. by simplify_eq.
  - intros (Hp & Hb & Hrb). exists (x, y). split; [|done].
    apply list_elem_of_bind. exists b. split; [|done].
    apply list_elem_of_bind. exists rb. split; [|done]. by apply list_elem_of_singleton.
Qed.

Lemma lpSum_singletons {A} (g : A → LpAffineExpression) (h : A → Z * LpVariable) l :
  (∀ x, g x = [h x]) → lpSum (g <$> l) = h <$> l.
Proof.
  intros Hg. unfold lpSum. induction l as [|x l IH]; [done|].
  csimpl. by rewrite Hg, IH.
Qed.

Lemma getitem_penalties X x rb :
  x ∈ range X → rb ∈ range X → getitem (penalties X) (x, rb) = Ok (penalty x rb).
Proof.
  intros Hx Hrb. unfold getitem. by rewrite lookup_penalties, decide_True by done.
Qed.

Lemma add_objective_Ok X Y bricks m :
  add_objective X Y bricks m = Ok (iadd_objective m (objective_terms X Y bricks)).
Proof.
  unfold add_objective.
  rewrite (mapM_Ok _ (λ t, mul_expr (penalty t.1.1.1 t.2)
                                     (brick_var t.1.1.1 t.1.1.2 t.1.2 t.2))).
  - simpl. do 2 f_equal. by apply lpSum_singletons.
  - intros [[[x y] b] rb] (Hp & Hb & Hrb)%elem_of_tuples.
    apply elem_of_positions in Hp as [Hx Hy]. simpl.
    rewrite getitem_penalties by done. simpl. by rewrite v_at_Ok by done.
Qed.

Lemma condition1_Ok X Y bricks m :
  condition1 X Y bricks m = Ok (add_constraints m (occupancy X Y bricks)).
Proof.
  unfold condition1, occupancy. apply for_each_add.
  intros m' [x y] [Hx Hy]%elem_of_positions.
  rewrite (mapM_Ok _ (λ c, brick_var x y c.1 c.2)).
  - simpl. rewrite iadd_constraint_add. do 4 f_equal.
    rewrite <-list_fmap_compose. by apply lpSum_singletons.
  - intros [b rb] [Hb Hrb]%elem_of_candidates. by apply v_at_Ok.
Qed.

Lemma condition2_Ok X Y bricks m :
  condition2 X Y bricks m = Ok (add_constraints m (placement X Y bricks)).
Proof.
  unfold condition2, placement. apply for_each_add.
  intros m' b Hb.
  rewrite (mapM_Ok _ (λ t, brick_var t.1.1 t.1.2 b t.2)).
  - simpl. rewrite iadd_constraint_add. do 4 f_equal.
    rewrite <-list_fmap_compose. by apply lpSum_singletons.
  - intros [[x y] rb] [[Hx Hy]%elem_of_positions Hrb]%elem_of_places.
    by apply v_at_Ok.
Qed.

Lemma condition3_Ok X Y bricks m :
  condition3 X Y bricks m = Ok (add_constraints m (boundary X Y bricks)).
Proof.
  unfold condition3, boundary. apply for_each_add.
  intros m' x Hx. apply for_each_add.
  intros m'' rb Hrb. case_decide; [|by rewrite add_constraints_nil].
  rewrite (mapM_Ok _ (λ c, brick_var x c.1 c.2 rb)).
  - simpl. rewrite iadd_constraint_add. do 4 f_equal.
    rewrite <-list_fmap_compose. by apply lpSum_singletons.
  - intros [y b] [Hy Hb]%elem_of_column. by apply v_at_Ok.
Qed.

Lemma lpSum_app es1 es2 : lpSum (es1 ++ es2) = lpSum es1 ++ lpSum es2.
Proof. unfold lpSum. apply concat_app. Qed.

Lemma cohesion_pair_Ok X Y bricks b1 b2 m :
  positions X Y = [] ∨ (b1 ∈ bricks ∧ b2 ∈ bricks) →
  for_each (range X) (cohesion_body X Y bricks b1 b2) m =
  Ok (add_constraints m (cohesion X Y [(b1, b2)])).
Proof.
  intros Hknown. unfold cohesion, cohesion_constraint. rewrite bind_singleton.
  apply for_each_add. intros m' rb Hrb. unfold cohesion_body.
  assert (∀ p, p ∈ positions X Y → p.1 ∈ range X ∧ p.2 ∈ range Y ∧
                                    b1 ∈ bricks ∧ b2 ∈ bricks) as Hp.
  { intros [x y] Hin. destruct Hknown as [Hnil|[??]].
    - rewrite Hnil in Hin. by apply not_elem_of_nil in Hin.
    - by apply elem_of_positions in Hin as [??]. }
  rewrite (mapM_Ok (λ '(x, y), var ← v_at X Y bricks x y b1 rb; mret (var_expr var))
                   (λ p, var_expr (brick_var p.1 p.2 b1 rb))); last first.
  { intros [x y] Hin. destruct (Hp _ Hin) as (? & ? & ? & ?). simpl in *.
    by rewrite v_at_Ok. }
  simpl.
  rewrite (mapM_Ok _ (λ p, neg_expr (brick_var p.1 p.2 b2 rb))); last first.
  { intros [x y] Hin. destruct (Hp _ Hin) as (? & ? & ? & ?). simpl in *.
    by rewrite v_at_Ok. }
  simpl. rewrite iadd_constraint_add, lpSum_app. do 4 f_equal.
  by rewrite !(lpSum_singletons _ (λ p, (_, brick_var p.1 p.2 _ rb))) by done.
Qed.

Lemma cohesion_cons X Y bb pairs :
  cohesion X Y (bb :: pairs) = cohesion X Y [bb] ++ cohesion X Y pairs.
Proof. unfold cohesion. by rewrite bind_cons, bind_singleton. Qed.

Lemma condition4_Ok X Y bricks pairs m :
  positions X Y = [] ∨ Forall (λ bb, ¬ unknown_pair bricks bb) pairs →
  condition4 X Y bricks pairs m = Ok (add_constraints m (cohesion X Y pairs)).
Proof.
  intros Hknown. unfold condition4. revert m.
  induction pairs as [|[b1 b2] pairs IH]; intros m.
  - simpl. by rewrite add_constraints_nil.
  - cbn [for_each].
    assert (positions X Y = [] ∨ (b1 ∈ bricks ∧ b2 ∈ bricks)) as Hhead.
    { destruct Hknown as [?|Hall]; [by left|right].
      inversion Hall as [|?? Hb]; subst. unfold unknown_pair in Hb. simpl in Hb.
      split; [destruct (decide (b1 ∈ bricks))|destruct (decide (b2 ∈ bricks))];
        naive_solver. }
    pose proof (cohesion_pair_Ok X Y bricks b1 b2 m Hhead) as Hpair.
    unfold cohesion_body in Hpair. rewrite Hpair, bind_Ok, IH.
    + by rewrite add_constraints_app, <-cohesion_cons.
    + destruct Hknown as [?|Hall]; [by left|right]. by inversion Hall.
Qed.

Lemma cohesion_pair_Raise X Y bricks b1 b2 m :
  positions X Y ≠ [] → unknown_pair bricks (b1, b2) →
  ∃ b, for_each (range X) (cohesion_body X Y bricks b1 b2) m = Raise (KeyError (StrKey b))
       ∧ (b ∉ bricks) ∧ (b = b1 ∨ b = b2).
Proof.
  intros Hpos Hunk. unfold cohesion_body.
  destruct X as [|X]; [destruct Hpos; apply positions_nil; by left|].
  rewrite range_S. cbn [for_each].
  assert (0 ∈ range (S X)) as H0 by (apply elem_of_range; lia).
  destruct (positions (S X) Y) as [|[x y] ps] eqn:Hps; [done|].
  assert ((x, y) ∈ positions (S X) Y) as [Hx Hy]%elem_of_positions
    by (rewrite Hps; left).
  destruct (decide (b1 ∈ bricks)) as [Hb1|Hb1].
  - assert (b2 ∉ bricks) as Hb2 by (destruct Hunk; done).
    exists b2. split; [|by auto].
    rewrite (mapM_Ok (λ '(x, y), var ← v_at (S X) Y bricks x y b1 0; mret (var_expr var))
                     (λ p, var_expr (brick_var p.1 p.2 b1 0))); last first.
    { intros [x' y'] Hin. rewrite <-Hps in Hin.
      apply elem_of_positions in Hin as [??]. by rewrite v_at_Ok. }
    simpl. by rewrite (v_at_unknown _ _ _ x y b2 0) by done.
  - exists b1. split; [|by auto].
    simpl. by rewrite (v_at_unknown _ _ _ x y b1 0) by done.
Qed.

Lemma condition4_Raise X Y bricks pairs m :
  positions X Y ≠ [] → Exists (unknown_pair bricks) pairs →
  ∃ b, condition4 X Y bricks pairs m = Raise (KeyError (StrKey b)) ∧ (b ∉ bricks) ∧
       ∃ bb, bb ∈ pairs ∧ (b = bb.1 ∨ b = bb.2).
Proof.
  intros Hpos. unfold condition4. revert m.
  induction pairs as [|[b1 b2] pairs IH]; intros m Hex; [by inversion Hex|].
  cbn [for_each].
  destruct (decide (unknown_pair bricks (b1, b2))) as [Hunk|Hknown].
  - destruct (cohesion_pair_Raise X Y bricks b1 b2 m Hpos Hunk) as (b & Hr & Hb & Hor).
    unfold cohesion_body in Hr. rewrite Hr.
    exists b. split; [done|]. split; [done|]. exists (b1, b2). split; [left|done].
  - assert (positions X Y = [] ∨ (b1 ∈ bricks ∧ b2 ∈ bricks)) as Hhead.
    { right. unfold unknown_pair in Hknown. simpl in Hknown.
      split; [destruct (decide (b1 ∈ bricks))|destruct (decide (b2 ∈ bricks))];
        naive_solver. }
    pose proof (cohesion_pair_Ok X Y bricks b1 b2 m Hhead) as Hpair.
    unfold cohesion_body in Hpair. rewrite Hpair, bind_Ok.
    apply Exists_cons in Hex as [?|Hex]; [done|].
    destruct (IH (add_constraints m (cohesion X Y [(b1, b2)])) Hex)
      as (b & Hr & Hb & bb & Hbb & Hor).
    exists b. split; [done|]. split; [done|]. exists bb. split; [by right|done].
Qed.

Lemma program_eq X Y bricks pairs :
  add_constraints (add_constraints (add_constraints (add_constraints
    (iadd_objective (m0) (objective_terms X Y bricks))
    (occupancy X Y bricks)) (placement X Y bricks)) (boundary X Y bricks))
    (cohesion X Y pairs) = program X Y bricks pairs.
Proof. unfold program, add_constraints. simpl. by rewrite <-!app_assoc. Qed.

(** [build] returns the program in closed form unless a pair names an
    unknown brick on a non-empty grid, in which case it raises
    [KeyError] with that brick. *)
Lemma build_Ok X Y bricks pairs :
  positions X Y = [] ∨ Forall (λ bb, ¬ unknown_pair bricks bb) pairs →
  build X Y bricks pairs = Ok (program X Y bricks pairs).
Proof.
  intros Hknown. unfold build.
  rewrite add_objective_Ok. simpl. rewrite condition1_Ok. simpl.
  rewrite condition2_Ok. simpl. rewrite condition3_Ok. simpl.
  rewrite condition4_Ok by done. by rewrite program_eq.
Qed.

Lemma build_Raise X Y bricks pairs :
  positions X Y ≠ [] → Exists (unknown_pair bricks) pairs →
  ∃ b, build X Y bricks pairs = Raise (KeyError (StrKey b)) ∧ (b ∉ bricks) ∧
       ∃ bb, bb ∈ pairs ∧ (b = bb.1 ∨ b = bb.2).
Proof.
  intros Hpos Hex. unfold build.
  rewrite add_objective_Ok. simpl. rewrite condition1_Ok. simpl.
  rewrite condition2_Ok. simpl. rewrite condition3_Ok. simpl.
  by apply condition4_Raise.
Qed.

Lemma build_Ok_inv X Y bricks pairs m :
  build X Y bricks pairs = Ok m →
  m = program X Y bricks pairs ∧
  (positions X Y = [] ∨ Forall (λ bb, ¬ unknown_pair bricks bb) pairs).
Proof.
  intros Hbuild.
  destruct (decide (positions X Y = [])) as [Hnil|Hpos].
  { rewrite build_Ok in Hbuild by (by left). split; [congruence|by left]. }
  destruct (decide (Exists (unknown_pair bricks) pairs)) as [Hex|Hall].
  { destruct (build_Raise X Y bricks pairs Hpos Hex) as (b & Hr & _). congruence. }
  apply not_Exists_Forall in Hall; [|apply _].
  rewrite build_Ok in Hbuild by (by right). split; [congruence|by right].
Qed.

(** ** Sums *)

Lemma sumZ_app {A} (f : A → Z) l1 l2 : sumZ f (l1 ++ l2) = sumZ f l1 + sumZ f l2.
Proof. induction l1 as [|x l1 IH]; simpl; [done|]. rewrite IH. lia. Qed.

Lemma sumZ_fmap {A B} (f : B → Z) (g : A → B) l : sumZ f (g <$> l) = sumZ (f ∘ g) l.
Proof. induction l as [|x l IH]; csimpl; [done|]. by rewrite IH. Qed.

Lemma sumZ_bind {A B} (f : B → Z) (g : A → list B) l :
  sumZ f (l ≫= g) = sumZ (λ x, sumZ f (g x)) l.
Proof. induction l as [|x l IH]; csimpl; [done|]. by rewrite sumZ_app, IH. Qed.

Lemma sumZ_ext {A} (f g : A → Z) l : (∀ x, x ∈ l → f x = g x) → sumZ f l = sumZ g l.
Proof.
  induction l as [|x l IH]; intros Hfg; simpl; [done|].
  rewrite Hfg by left. rewrite IH; [done|]. intros z Hz. apply Hfg. by right.
Qed.

Lemma sumZ_add {A} (f g : A → Z) l : sumZ (λ x, f x + g x) l = sumZ f l + sumZ g l.
Proof. induction l as [|x l IH]; simpl; [done|]. rewrite IH. lia. Qed.

Lemma sumZ_mul {A} c (f : A → Z) l : sumZ (λ x, c * f x) l = c * sumZ f l.
Proof. induction l as [|x l IH]; simpl; [lia|]. rewrite IH. lia. Qed.

Lemma sumZ_zeros {A} (l : list A) : sumZ (λ _, 0) l = 0.
Proof. induction l as [|x l IH]; simpl; [done|]. by rewrite IH. Qed.

Lemma sumZ_swap {A B} (f : A → B → Z) l k :
  sumZ (λ x, sumZ (f x) k) l = sumZ (λ y, sumZ (λ x, f x y) l) k.
Proof.
  induction l as [|x l IH]; simpl.
  - by rewrite sumZ_zeros.
  - by rewrite IH, sumZ_add.
Qed.

(** Sums of non-negative values *)

Lemma sumZ_nonneg {A} (f : A → Z) (l : list A) :
  (∀ x, x ∈ l → 0 ≤ f x) → 0 ≤ sumZ f l.
Proof.
  induction l as [|z l IH]; intros Hpos; simpl; [done|].
  assert (0 ≤ f z) by (apply Hpos; left).
  assert (0 ≤ sumZ f l); [|lia].
  apply IH. intros x Hx. apply Hpos. by right.
Qed.

Lemma sumZ_elem_le {A} (f : A → Z) (l : list A) :
  (∀ x, x ∈ l → 0 ≤ f x) → ∀ x, x ∈ l → f x ≤ sumZ f l.
Proof.
  induction l as [|z l IH]; intros Hpos x Hx; [by apply not_elem_of_nil in Hx|].
  assert (0 ≤ f z) by (apply Hpos; left).
  assert (∀ w, w ∈ l → 0 ≤ f w) as Hl by (intros w Hw; apply Hpos; by right).
  pose proof (sumZ_nonneg f l Hl). simpl.
  apply elem_of_cons in Hx as [->|Hx]; [lia|].
  specialize (IH Hl x Hx). lia.
Qed.

(** Two entries at different indices are both counted. *)
Lemma sumZ_lookup2_le {A} (f : A → Z) (l : list A) :
  (∀ x, x ∈ l → 0 ≤ f x) →
  ∀ i j x y, i ≠ j → l !! i = Some x → l !! j = Some y → f x + f y ≤ sumZ f l.
Proof.
  induction l as [|z l IH]; intros Hpos i j x y Hij Hi Hj; [done|].
  assert (0 ≤ f z) by (apply Hpos; left).
  assert (∀ w, w ∈ l → 0 ≤ f w) as Hl by (intros w Hw; apply Hpos; by right).
  simpl. destruct i as [|i], j as [|j]; simpl in *; simplify_eq.
  - pose proof (sumZ_elem_le f l Hl y (list_elem_of_lookup_2 _ _ _ Hj)). lia.
  - pose proof (sumZ_elem_le f l Hl x (list_elem_of_lookup_2 _ _ _ Hi)). lia.
  - assert (i ≠ j) as Hne by congruence. specialize (IH Hl i j x y Hne Hi Hj). lia.
Qed.

Lemma sumZ_elem2_le {A} (f : A → Z) (l : list A) :
  (∀ x, x ∈ l → 0 ≤ f x) →
  ∀ x y, x ≠ y → x ∈ l → y ∈ l → f x + f y ≤ sumZ f l.
Proof.
  intros Hpos x y Hne [i Hi]%list_elem_of_lookup [j Hj]%list_elem_of_lookup.
  apply (sumZ_lookup2_le f l Hpos i j); [|done|done]. intros ->. congruence.
Qed.

Lemma sumZ_zero_inv {A} (f : A → Z) (l : list A) :
  (∀ x, x ∈ l → 0 ≤ f x) → ∀ x, sumZ f l = 0 → x ∈ l → f x = 0.
Proof.
  intros Hpos x Hsum Hx. pose proof (sumZ_elem_le f l Hpos x Hx).
  pose proof (Hpos x Hx). lia.
Qed.

Lemma sumZ_pos_elem {A} (f : A → Z) (l : list A) :
  0 < sumZ f l → ∃ x, x ∈ l ∧ 0 < f x.
Proof.
  induction l as [|z l IH]; simpl; intros Hsum; [lia|].
  destruct (decide (0 < f z)) as [|Hz]; [exists z; split; [left|done]|].
  destruct IH as (x & Hx & Hfx); [lia|]. exists x. split; [by right|done].
Qed.

(** A sum of non-negative integers equal to 1 has exactly one entry
    equal to 1, and every other entry is 0. *)
Lemma sumZ_one_inv {A} (f : A → Z) (l : list A) :
  (∀ x, x ∈ l → 0 ≤ f x) →
  sumZ f l = 1 → ∃ x, x ∈ l ∧ f x = 1 ∧ ∀ y, y ∈ l → y ≠ x → f y = 0.
Proof.
  intros Hpos Hsum.
  destruct (sumZ_pos_elem f l) as (x & Hx & Hfx); [lia|].
  exists x. pose proof (sumZ_elem_le f l Hpos x Hx). split; [done|]. split; [lia|].
  intros y Hy Hne. pose proof (sumZ_elem2_le f l Hpos y x Hne Hy Hx).
  pose proof (Hpos y Hy). lia.
Qed.

(** ** Feasible assignments of the program *)

Lemma eval_fmap {A} (a : LpVariable → Z) (h : A → Z * LpVariable) l :
  eval a (h <$> l) = sumZ (λ x, (h x).1 * a (h x).2) l.
Proof. unfold eval. by rewrite sumZ_fmap. Qed.

Lemma eval_ones {A} (a : LpVariable → Z) (h : A → LpVariable) l :
  eval a ((λ x, (1, h x)) <$> l) = sumZ (λ x, a (h x)) l.
Proof. rewrite eval_fmap. apply sumZ_ext. intros x _. simpl. lia. Qed.

Lemma eval_neg_ones {A} (a : LpVariable → Z) (h : A → LpVariable) l :
  eval a ((λ x, (-1, h x)) <$> l) = - sumZ (λ x, a (h x)) l.
Proof.
  rewrite eval_fmap. transitivity (-1 * sumZ (λ x, a (h x)) l); [|lia].
  rewrite <-sumZ_mul. by apply sumZ_ext.
Qed.

Lemma eval_app a e1 e2 : eval a (e1 ++ e2) = eval a e1 + eval a e2.
Proof. unfold eval. apply sumZ_app. Qed.

Lemma elem_of_variables m var :
  var ∈ variables m ↔
  (∃ c, (c, var) ∈ objective m) ∨
  (∃ k c, k ∈ constraints m ∧ (c, var) ∈ lhs k).
Proof.
  unfold variables. rewrite elem_of_remove_dups, list_elem_of_fmap. split.
  - intros ([c var'] & -> & [Hobj|Hcons]%elem_of_app); [left; by exists c|right].
    apply list_elem_of_bind in Hcons as (k & Hk & Hin). by exists k, c.
  - intros [[c Hobj]|(k & c & Hk & Hin)]; exists (c, var); (split; [done|]);
      apply elem_of_app; [by left|right].
    apply list_elem_of_bind. by exists k.
Qed.

Section feasible.
Context (X Y : nat) (bricks : list string) (pairs : list (string * string)).
Context (a : LpVariable → Z).
Hypothesis Hfeas : feasible (program X Y bricks pairs) a.

Lemma feasible_bounds x y b rb :
  (x, y) ∈ positions X Y → b ∈ bricks → rb ∈ range X →
  0 ≤ a (brick_var x y b rb) ≤ 1.
Proof using Hfeas.
  intros Hp Hb Hrb. destruct Hfeas as [Hbounds _].
  rewrite Forall_forall in Hbounds. apply (Hbounds (brick_var x y b rb)).
  apply elem_of_variables. left. exists (penalty x rb). simpl.
  unfold objective_terms. apply list_elem_of_fmap. exists (x, y, b, rb).
  split; [done|]. by apply elem_of_tuples.
Qed.

Lemma feasible_holds k :
  k ∈ occupancy X Y bricks ++ placement X Y bricks ++ boundary X Y bricks ++
      cohesion X Y pairs →
  holds a k.
Proof using Hfeas.
  destruct Hfeas as [_ Hcons]. rewrite Forall_forall in Hcons. apply Hcons.
Qed.

Lemma feasible_occupancy x y :
  (x, y) ∈ positions X Y →
  sumZ (λ c, a (brick_var x y c.1 c.2)) (candidates X bricks) ≤ 1.
Proof using Hfeas.
  intros Hp. rewrite <-eval_ones.
  apply (feasible_holds (LpCons _ LpConstraintLE 1)).
  apply elem_of_app. left. unfold occupancy. apply list_elem_of_bind.
  exists (x, y). split; [|done]. by apply list_elem_of_singleton.
Qed.

Lemma feasible_placement b :
  b ∈ bricks → sumZ (λ t, a (brick_var t.1.1 t.1.2 b t.2)) (places X Y) = 1.
Proof using Hfeas.
  intros Hb. rewrite <-eval_ones.
  apply (feasible_holds (LpCons _ LpConstraintEQ 1)).
  apply elem_of_app. right. apply elem_of_app. left.
  unfold placement. apply list_elem_of_bind.
  exists b. split; [|done]. by apply list_elem_of_singleton.
Qed.

Lemma feasible_boundary x rb :
  x ∈ range X → rb ∈ range X → x > rb →
  sumZ (λ c, a (brick_var x c.1 c.2 rb)) (column Y bricks) = 0.
Proof using Hfeas.
  intros Hx Hrb Hgt. rewrite <-eval_ones.
  apply (feasible_holds (LpCons _ LpConstraintEQ 0)).
  apply elem_of_app. right. apply elem_of_app. right. apply elem_of_app. left.
  unfold boundary. apply list_elem_of_bind. exists x. split; [|done].
  apply list_elem_of_bind. exists rb. split; [|done].
  rewrite decide_True by done. by apply list_elem_of_singleton.
Qed.

Lemma feasible_cohesion b1 b2 rb :
  (b1, b2) ∈ pairs → rb ∈ range X →
  column_sum X Y a b1 rb = column_sum X Y a b2 rb.
Proof using Hfeas.
  intros Hbb Hrb.
  assert (holds a (cohesion_constraint X Y b1 b2 rb)) as Hk.
  { apply feasible_holds. do 3 (apply elem_of_app; right).
    unfold cohesion. apply list_elem_of_bind. exists (b1, b2). split; [|done].
    apply list_elem_of_bind. exists rb. split; [|done].
    by apply list_elem_of_singleton. }
  unfold holds, cohesion_constraint in Hk. cbn [csense lhs rhs] in Hk.
  rewrite eval_app, eval_ones, eval_neg_ones in Hk. unfold column_sum. lia.
Qed.
End feasible.

(** ** Searching a list *)

Lemma list_find_unique {A} (P : A → Prop) `{!∀ x, Decision (P x)} l x :
  x ∈ l → P x → (∀ y, y ∈ l → P y → y = x) → snd <$> list_find P l = Some x.
Proof.
  intros Hx HP Huniq.
  destruct (list_find_elem_of P l x Hx HP) as [[i x'] Hfind].
  rewrite Hfind. simpl. f_equal.
  apply list_find_Some in Hfind as (Hi & HP' & _).
  apply Huniq; [|done]. by eapply list_elem_of_lookup_2.
Qed.

Lemma list_find_ext_in {A} (P Q : A → Prop) `{!∀ x, Decision (P x)}
    `{!∀ x, Decision (Q x)} l :
  (∀ x, x ∈ l → P x ↔ Q x) → list_find P l = list_find Q l.
Proof.
  induction l as [|x l IH]; intros HPQ; [done|]. cbn [list_find].
  rewrite (decide_ext (P x) (Q x)) by (apply HPQ; left).
  rewrite IH; [done|]. intros z Hz. apply HPQ. by right.
Qed.

Lemma list_find_Some_elem {A} (P : A → Prop) `{!∀ x, Decision (P x)} l x :
  snd <$> list_find P l = Some x → x ∈ l ∧ P x.
Proof.
  destruct (list_find P l) as [[i x']|] eqn:Hfind; [|done]. simpl. intros [= ->].
  apply list_find_Some in Hfind as (Hi & HP & _).
  split; [by eapply list_elem_of_lookup_2|done].
Qed.

Lemma omap_total {A B} (f : A → option B) l :
  (∀ x, x ∈ l → is_Some (f x)) →
  (∀ x y, x ∈ l → y ∈ l → f x = f y → x = y) →
  NoDup l → NoDup (omap f l) ∧ length (omap f l) = length l.
Proof.
  induction l as [|x l IH]; intros Hsome Hinj Hnd; [split; [constructor|done]|].
  apply NoDup_cons in Hnd as [Hx Hnd].
  destruct (Hsome x) as [y Hy]; [left|]. cbn [omap list_omap]. rewrite Hy.
  destruct IH as [IH1 IH2]; [| |done|].
  { intros z Hz. apply Hsome. by right. }
  { intros z1 z2 Hz1 Hz2. apply Hinj; by right. }
  split; [|simpl; by rewrite IH2].
  apply NoDup_cons. split; [|done].
  intros (z & Hz & Hfz)%list_elem_of_omap. apply Hx.
  rewrite (Hinj x z); [done|left|by right|congruence].
Qed.

Lemma v_at_Ok_inv X Y bricks x y b rb var :
  v_at X Y bricks x y b rb = Ok var →
  x ∈ range X ∧ y ∈ range Y ∧ b ∈ bricks ∧ rb ∈ range X ∧ var = brick_var x y b rb.
Proof.
  unfold v_at, v, LpVariable_dicts. intros Hv.
  rewrite getitem_dict_of in Hv. destruct (decide (x ∈ range X)); [|done].
  rewrite bind_Ok, getitem_dict_of in Hv. destruct (decide (y ∈ range Y)); [|done].
  rewrite bind_Ok, getitem_dict_of in Hv. destruct (decide (b ∈ bricks)); [|done].
  rewrite bind_Ok, getitem_dict_of in Hv. destruct (decide (rb ∈ range X)); [|done].
  by simplify_eq.
Qed.

(** ** The penalty matrix *)

(** C6: for every [x] and [rb] in [0..XSIZE-1] the penalty matrix holds
    [10 * |rb - x|] at [(x, rb)]; it is therefore symmetric and zero on
    the diagonal. *)
Theorem penalties_spec (X : nat) (x rb : Z) :
  0 ≤ x < Z.of_nat X → 0 ≤ rb < Z.of_nat X →
  penalties X !! (x, rb) = Some (10 * Z.abs (rb - x)) ∧
  penalties X !! (x, rb) = penalties X !! (rb, x) ∧
  penalties X !! (x, x) = Some 0.
Proof.
  intros Hx%elem_of_range Hrb%elem_of_range.
  rewrite !lookup_penalties, !decide_True by done. unfold penalty.
  split; [done|]. split; f_equal; lia.
Qed.

Lemma penalties_spec_witness :
  penalties 4 !! (1, 3) = Some (10 * Z.abs (3 - 1)) ∧
  penalties 4 !! (1, 3) = penalties 4 !! (3, 1) ∧
  penalties 4 !! (1, 1) = Some 0.
Proof. apply (penalties_spec 4 1 3); lia. Defined.

(** ** The anchor as a right-hand limit *)

(** C3: in a feasible assignment of the built program, a variable
    [v[x][y][brick][rb]] equal to 1 has [x <= rb]. *)
Theorem anchor_boundary X Y bricks pairs m a x y b rb var :
  build X Y bricks pairs = Ok m → feasible m a →
  v_at X Y bricks x y b rb = Ok var → a var = 1 →
  x ≤ rb.
Proof.
  intros [-> _]%build_Ok_inv Hfeas (Hx & Hy & Hb & Hrb & ->)%v_at_Ok_inv Hone.
  destruct (decide (x ≤ rb)) as [|Hgt]; [done|]. exfalso.
  assert (a (brick_var x y b rb) = 0); [|lia].
  apply (sumZ_zero_inv (λ c, a (brick_var x c.1 c.2 rb)) (column Y bricks)) with (x := (y, b)).
  - intros [y' b'] [Hy' Hb']%elem_of_column. simpl.
    apply (feasible_bounds X Y bricks pairs a Hfeas); [|done..].
    by apply elem_of_positions.
  - apply (feasible_boundary X Y bricks pairs a Hfeas); [done..|lia].
  - by apply elem_of_column.
Qed.

Lemma anchor_boundary_witness :
  v_at nb_XSIZE nb_YSIZE nb_bricks 2 2 "c3" 3 = Ok (brick_var 2 2 "c3" 3) ∧
  nb_value (brick_var 2 2 "c3" 3) = 1 ∧
  (2 : Z) ≤ 3.
Proof.
  split; [by_evaluation|]. split; [by_evaluation|].
  apply (anchor_boundary nb_XSIZE nb_YSIZE nb_bricks nb_pairs nb_program nb_value
           2 2 "c3" 3 (brick_var 2 2 "c3" 3)); by_evaluation.
Defined.

(** ** One cell per brick, one brick per cell *)

Section assignment.
Context (X Y : nat) (bricks : list string) (pairs : list (string * string)).
Context (a : LpVariable → Z).
Hypothesis Hfeas : feasible (program X Y bricks pairs) a.

(** Placement: a brick has exactly one variable equal to 1. *)
Lemma brick_unique_place b :
  b ∈ bricks →
  ∃ x y rb, (x, y) ∈ positions X Y ∧ rb ∈ range X ∧ a (brick_var x y b rb) = 1 ∧
    ∀ x' y' rb', (x', y') ∈ positions X Y → rb' ∈ range X →
      a (brick_var x' y' b rb') ≠ 0 → x' = x ∧ y' = y ∧ rb' = rb.
Proof using Hfeas.
  intros Hb.
  destruct (sumZ_one_inv (λ t, a (brick_var t.1.1 t.1.2 b t.2)) (places X Y))
    as ([[x y] rb] & [Hp Hrb]%elem_of_places & Hone & Hothers).
  - intros [[x y] rb] [Hp Hrb]%elem_of_places.
    by apply (feasible_bounds X Y bricks pairs a Hfeas).
  - by apply (feasible_placement X Y bricks pairs a Hfeas).
  - exists x, y, rb. split_and!; [done..|].
    intros x' y' rb' Hp' Hrb' Hne.
    destruct (decide ((x', y', rb') = (x, y, rb))) as [|Hdiff]; [by simplify_eq|].
    destruct Hne. apply (Hothers (x', y', rb')); [|done]. by apply elem_of_places.
Qed.

(** Occupancy: a cell has at most one variable equal to 1. *)
Lemma cell_single x y b1 rb1 b2 rb2 :
  (x, y) ∈ positions X Y → b1 ∈ bricks → rb1 ∈ range X → b2 ∈ bricks → rb2 ∈ range X →
  a (brick_var x y b1 rb1) = 1 → a (brick_var x y b2 rb2) = 1 →
  b1 = b2 ∧ rb1 = rb2.
Proof using Hfeas.
  intros Hp Hb1 Hrb1 Hb2 Hrb2 H1 H2.
  destruct (decide ((b1, rb1) = (b2, rb2))) as [|Hne]; [by simplify_eq|]. exfalso.
  pose proof (feasible_occupancy X Y bricks pairs a Hfeas x y Hp) as Hocc.
  pose proof (sumZ_elem2_le (λ c, a (brick_var x y c.1 c.2)) (candidates X bricks))
    as Htwo.
  specialize (Htwo) with (x := (b1, rb1)) (y := (b2, rb2)). simpl in Htwo.
  assert (a (brick_var x y b1 rb1) + a (brick_var x y b2 rb2) ≤
          sumZ (λ c, a (brick_var x y c.1 c.2)) (candidates X bricks)); [|lia].
  apply Htwo; [|done|by apply elem_of_candidates..].
  intros [b rb] [Hb Hrb]%elem_of_candidates.
  by apply (feasible_bounds X Y bricks pairs a Hfeas).
Qed.

(** A list of bricks with a duplicate has no feasible assignment. *)
Lemma feasible_NoDup_bricks : NoDup bricks.
Proof using Hfeas.
  apply NoDup_alt. intros i j b Hi Hj.
  destruct (decide (i = j)) as [|Hij]; [done|]. exfalso.
  assert (b ∈ bricks) as Hb by (by eapply list_elem_of_lookup_2).
  destruct (brick_unique_place b Hb) as (x & y & rb & Hp & Hrb & Hone & _).
  pose proof (feasible_occupancy X Y bricks pairs a Hfeas x y Hp) as Hocc.
  unfold candidates in Hocc. rewrite sumZ_bind in Hocc.
  set (g := λ b', sumZ (λ c, a (brick_var x y c.1 c.2)) (rb' ← range X; [(b', rb')]))
    in Hocc.
  assert (∀ b' rb', b' ∈ bricks → (b', rb') ∈ (rb' ← range X; [(b', rb')]) →
                    rb' ∈ range X) as Hin.
  { intros b' rb' _ (rb'' & Heq%list_elem_of_singleton & ?)%list_elem_of_bind.
    by simplify_eq. }
  assert (1 ≤ g b) as Hg.
  { rewrite <-Hone. unfold g.
    apply (sumZ_elem_le (λ c, a (brick_var x y c.1 c.2))) with (x := (b, rb)).
    - intros [b' rb'] Hc.
      apply list_elem_of_bind in Hc as (rb'' & Heq%list_elem_of_singleton & ?).
      simplify_eq. by apply (feasible_bounds X Y bricks pairs a Hfeas).
    - apply list_elem_of_bind. exists rb. split; [|done].
      by apply list_elem_of_singleton. }
  assert (g b + g b ≤ sumZ g bricks); [|lia].
  apply (sumZ_lookup2_le g bricks) with (i := i) (j := j); [|done..].
  intros b' Hb'. apply sumZ_nonneg. intros [b'' rb'] Hc.
  apply list_elem_of_bind in Hc as (rb'' & Heq%list_elem_of_singleton & ?).
  simplify_eq. by apply (feasible_bounds X Y bricks pairs a Hfeas).
Qed.

Lemma cell_of_spec b x y rb :
  b ∈ bricks → (x, y) ∈ positions X Y → rb ∈ range X → a (brick_var x y b rb) = 1 →
  cell_of X Y a b = Some (x, y).
Proof using Hfeas.
  intros Hb Hp Hrb Hone. unfold cell_of. apply list_find_unique; [done| |].
  - apply Exists_exists. by exists rb.
  - intros [x' y'] Hp' (rb' & Hrb' & Hone')%Exists_exists. simpl in Hone'.
    destruct (brick_unique_place b Hb) as (x0 & y0 & rb0 & _ & _ & _ & Huniq).
    destruct (Huniq x y rb) as (-> & -> & ->); [done|done|lia|].
    destruct (Huniq x' y' rb') as (-> & -> & ->); [done|done|lia|]. done.
Qed.

Lemma cell_of_Some b : b ∈ bricks → is_Some (cell_of X Y a b).
Proof using Hfeas.
  intros Hb. destruct (brick_unique_place b Hb) as (x & y & rb & Hp & Hrb & Hone & _).
  exists (x, y). by eapply cell_of_spec.
Qed.

Lemma cell_of_inj b1 b2 :
  b1 ∈ bricks → b2 ∈ bricks → cell_of X Y a b1 = cell_of X Y a b2 → b1 = b2.
Proof using Hfeas.
  intros Hb1 Hb2 Heq.
  destruct (brick_unique_place b1 Hb1) as (x1 & y1 & rb1 & Hp1 & Hrb1 & Hone1 & _).
  destruct (brick_unique_place b2 Hb2) as (x2 & y2 & rb2 & Hp2 & Hrb2 & Hone2 & _).
  rewrite (cell_of_spec b1 x1 y1 rb1), (cell_of_spec b2 x2 y2 rb2) in Heq by done.
  simplify_eq. by destruct (cell_single x2 y2 b1 rb1 b2 rb2).
Qed.
End assignment.

Lemma length_bind_const {A B} (f : A → list B) l n :
  (∀ x, x ∈ l → length (f x) = n) → length (l ≫= f) = (length l * n)%nat.
Proof.
  induction l as [|x l IH]; intros Hf; csimpl; [done|].
  rewrite length_app, Hf by left. rewrite IH; [done|].
  intros z Hz. apply Hf. by right.
Qed.

Lemma length_positions X Y : length (positions X Y) = (X * Y)%nat.
Proof.
  unfold positions. rewrite (length_bind_const _ _ Y), length_range; [done|].
  intros x _. rewrite (length_bind_const _ _ 1%nat), length_range; [lia|done].
Qed.

Lemma feasible_cells X Y bricks pairs a :
  feasible (program X Y bricks pairs) a →
  NoDup (cells X Y bricks a) ∧ length (cells X Y bricks a) = length bricks ∧
  ∀ p, p ∈ cells X Y bricks a → p ∈ positions X Y.
Proof.
  intros Hfeas.
  destruct (omap_total (cell_of X Y a) bricks) as [Hnd Hlen].
  { intros b Hb. by eapply cell_of_Some. }
  { intros b1 b2. by eapply cell_of_inj. }
  { by eapply feasible_NoDup_bricks. }
  split_and!; [done..|].
  intros p (b & Hb & Hc)%list_elem_of_omap.
  destruct (brick_unique_place X Y bricks pairs a Hfeas b Hb)
    as (x & y & rb & Hp & Hrb & Hone & _).
  rewrite (cell_of_spec X Y bricks pairs a Hfeas b x y rb) in Hc by done.
  by simplify_eq.
Qed.

(** A feasible assignment needs a cell for every brick. *)
Lemma feasible_capacity X Y bricks pairs a :
  feasible (program X Y bricks pairs) a → (length bricks ≤ X * Y)%nat.
Proof.
  intros (Hnd & Hlen & Hsub)%feasible_cells.
  rewrite <-Hlen, <-length_positions. apply submseteq_length.
  by apply NoDup_submseteq.
Qed.

(** C1: in every feasible assignment of the built program each brick has
    exactly one cell, distinct bricks have distinct cells, the cells of
    the bricks are [len(bricks)] different cells of the grid, and every
    other cell is empty.  Feasibility already bounds [len(bricks)] by
    [XSIZE*YSIZE], so that bound is a conclusion here.  For indices in
    range, [brick_var x y b rb] is [v[x][y][b][rb]] (lemma [v_at_Ok]). *)
Theorem occupancy_placement_bijection X Y bricks pairs m a :
  build X Y bricks pairs = Ok m → feasible m a →
  (∀ b, b ∈ bricks →
     ∃ x y, cell_of X Y a b = Some (x, y) ∧ (x, y) ∈ positions X Y ∧
       (∃ rb, rb ∈ range X ∧ a (brick_var x y b rb) = 1) ∧
       ∀ x' y' rb, (x', y') ∈ positions X Y → rb ∈ range X →
         a (brick_var x' y' b rb) = 1 → (x', y') = (x, y)) ∧
  (∀ b1 b2, b1 ∈ bricks → b2 ∈ bricks →
     cell_of X Y a b1 = cell_of X Y a b2 → b1 = b2) ∧
  NoDup (cells X Y bricks a) ∧
  length (cells X Y bricks a) = length bricks ∧
  (∀ x y, (x, y) ∈ positions X Y → (x, y) ∉ cells X Y bricks a →
     ∀ b rb, b ∈ bricks → rb ∈ range X → a (brick_var x y b rb) = 0) ∧
  (length bricks ≤ X * Y)%nat.
Proof.
  intros [-> _]%build_Ok_inv Hfeas.
  assert (∀ b, b ∈ bricks →
     ∃ x y, cell_of X Y a b = Some (x, y) ∧ (x, y) ∈ positions X Y ∧
       (∃ rb, rb ∈ range X ∧ a (brick_var x y b rb) = 1) ∧
       ∀ x' y' rb, (x', y') ∈ positions X Y → rb ∈ range X →
         a (brick_var x' y' b rb) = 1 → (x', y') = (x, y)) as Hcell.
  { intros b Hb.
    destruct (brick_unique_place X Y bricks pairs a Hfeas b Hb)
      as (x & y & rb & Hp & Hrb & Hone & Huniq).
    exists x, y. split_and!; [by eapply cell_of_spec|done|by exists rb|].
    intros x' y' rb' Hp' Hrb' Hone'.
    destruct (Huniq x' y' rb') as (-> & -> & _); [done|done|lia|done]. }
  destruct (feasible_cells X Y bricks pairs a Hfeas) as (Hnd & Hlen & _).
  split_and!; [done| |done|done| |].
  - intros b1 b2. by eapply cell_of_inj.
  - intros x y Hp Hfree b rb Hb Hrb.
    pose proof (feasible_bounds X Y bricks pairs a Hfeas x y b rb Hp Hb Hrb) as Hbd.
    destruct (decide (a (brick_var x y b rb) = 1)) as [Hone|]; [|lia].
    destruct Hfree. apply list_elem_of_omap. exists b. split; [done|].
    by eapply cell_of_spec.
  - by eapply feasible_capacity.
Qed.

Lemma occupancy_placement_bijection_witness :
  (∀ b, b ∈ nb_bricks →
     ∃ x y, cell_of nb_XSIZE nb_YSIZE nb_value b = Some (x, y) ∧
       (x, y) ∈ positions nb_XSIZE nb_YSIZE ∧
       (∃ rb, rb ∈ range nb_XSIZE ∧ nb_value (brick_var x y b rb) = 1) ∧
       ∀ x' y' rb, (x', y') ∈ positions nb_XSIZE nb_YSIZE → rb ∈ range nb_XSIZE →
         nb_value (brick_var x' y' b rb) = 1 → (x', y') = (x, y)) ∧
  (∀ b1 b2, b1 ∈ nb_bricks → b2 ∈ nb_bricks →
     cell_of nb_XSIZE nb_YSIZE nb_value b1 = cell_of nb_XSIZE nb_YSIZE nb_value b2 →
     b1 = b2) ∧
  NoDup (cells nb_XSIZE nb_YSIZE nb_bricks nb_value) ∧
  length (cells nb_XSIZE nb_YSIZE nb_bricks nb_value) = length nb_bricks ∧
  (∀ x y, (x, y) ∈ positions nb_XSIZE nb_YSIZE →
     (x, y) ∉ cells nb_XSIZE nb_YSIZE nb_bricks nb_value →
     ∀ b rb, b ∈ nb_bricks → rb ∈ range nb_XSIZE → nb_value (brick_var x y b rb) = 0) ∧
  (length nb_bricks ≤ nb_XSIZE * nb_YSIZE)%nat.
Proof.
  apply (occupancy_placement_bijection nb_XSIZE nb_YSIZE nb_bricks nb_pairs
           nb_program nb_value); by_evaluation.
Defined.

(** ** Same colour, same anchor column *)

Section anchors.
Context (X Y : nat) (bricks : list string) (pairs : list (string * string)).
Context (a : LpVariable → Z).
Hypothesis Hfeas : feasible (program X Y bricks pairs) a.

Lemma column_sum_nonneg b rb :
  b ∈ bricks → rb ∈ range X → 0 ≤ column_sum X Y a b rb.
Proof using Hfeas.
  intros Hb Hrb. unfold column_sum. apply sumZ_nonneg. intros [x y] Hp.
  by apply (feasible_bounds X Y bricks pairs a Hfeas).
Qed.

(** Placement, summed column by column *)
Lemma column_sums_total b :
  b ∈ bricks → sumZ (column_sum X Y a b) (range X) = 1.
Proof using Hfeas.
  intros Hb. rewrite <-(feasible_placement X Y bricks pairs a Hfeas b Hb).
  unfold places, column_sum. rewrite sumZ_bind, <-sumZ_swap.
  apply sumZ_ext. intros [x y] _. rewrite sumZ_bind.
  apply sumZ_ext. intros rb _. simpl. lia.
Qed.

Lemma anchor_unique b :
  b ∈ bricks →
  ∃ rb, rb ∈ range X ∧ anchor_of X Y a b = Some rb ∧
    ∀ rb', rb' ∈ range X → column_sum X Y a b rb' = 1 ↔ rb' = rb.
Proof using Hfeas.
  intros Hb.
  destruct (sumZ_one_inv (column_sum X Y a b) (range X))
    as (rb & Hrb & Hone & Hothers).
  { intros rb Hrb. by apply column_sum_nonneg. }
  { by apply column_sums_total. }
  assert (∀ rb', rb' ∈ range X → column_sum X Y a b rb' = 1 ↔ rb' = rb) as Hiff.
  { intros rb' Hrb'. split; [|by intros ->].
    intros Hone'. destruct (decide (rb' = rb)) as [|Hne]; [done|].
    rewrite (Hothers rb') in Hone' by done. lia. }
  exists rb. split_and!; [done| |done].
  unfold anchor_of. apply list_find_unique; [done..|].
  intros rb' Hrb' Hone'. by apply Hiff.
Qed.
End anchors.

(** C2: for a declared pair [(b1, b2)] and a feasible assignment of the
    built program, the anchor column of [b1] is the anchor column of
    [b2]: for each brick there is one [rb] with [Σ_{x,y} v[x][y][b][rb] = 1],
    and it is the same for both. *)
Theorem same_colour_same_anchor X Y bricks pairs m a b1 b2 :
  build X Y bricks pairs = Ok m → feasible m a → (b1, b2) ∈ pairs →
  anchor_of X Y a b1 = anchor_of X Y a b2 ∧
  (bricks ≠ [] →
   ∃ rb, rb ∈ range X ∧
     anchor_of X Y a b1 = Some rb ∧ anchor_of X Y a b2 = Some rb ∧
     ∀ rb', rb' ∈ range X →
       (column_sum X Y a b1 rb' = 1 ↔ rb' = rb) ∧
       (column_sum X Y a b2 rb' = 1 ↔ rb' = rb)).
Proof.
  intros [-> Hknown]%build_Ok_inv Hfeas Hpair.
  assert (anchor_of X Y a b1 = anchor_of X Y a b2) as Heq.
  { unfold anchor_of. f_equal. apply list_find_ext_in. intros rb Hrb.
    by rewrite (feasible_cohesion X Y bricks pairs a Hfeas b1 b2 rb). }
  split; [done|]. intros Hne.
  assert (b1 ∈ bricks) as Hb1.
  { destruct bricks as [|b0 bs] eqn:Hbs; [done|]. rewrite <-Hbs in *.
    assert (b0 ∈ bricks) as Hb0 by (rewrite Hbs; left).
    destruct (brick_unique_place X Y bricks pairs a Hfeas b0 Hb0)
      as (x & y & _ & Hp & _).
    destruct Hknown as [Hnil|Hall].
    { rewrite Hnil in Hp. by apply not_elem_of_nil in Hp. }
    rewrite Forall_forall in Hall. specialize (Hall _ Hpair).
    unfold unknown_pair in Hall. simpl in Hall.
    destruct (decide (b1 ∈ bricks)); [done|]. destruct Hall. by left. }
  destruct (anchor_unique X Y bricks pairs a Hfeas b1 Hb1) as (rb & Hrb & Ha1 & Hiff).
  exists rb. split_and!; [done|done|congruence|].
  intros rb' Hrb'. split; [by apply Hiff|].
  rewrite <-(feasible_cohesion X Y bricks pairs a Hfeas b1 b2 rb') by done.
  by apply Hiff.
Qed.

Lemma same_colour_same_anchor_witness :
  anchor_of nb_XSIZE nb_YSIZE nb_value "c1" = anchor_of nb_XSIZE nb_YSIZE nb_value "c4" ∧
  (nb_bricks ≠ [] →
   ∃ rb, rb ∈ range nb_XSIZE ∧
     anchor_of nb_XSIZE nb_YSIZE nb_value "c1" = Some rb ∧
     anchor_of nb_XSIZE nb_YSIZE nb_value "c4" = Some rb ∧
     ∀ rb', rb' ∈ range nb_XSIZE →
       (column_sum nb_XSIZE nb_YSIZE nb_value "c1" rb' = 1 ↔ rb' = rb) ∧
       (column_sum nb_XSIZE nb_YSIZE nb_value "c4" rb' = 1 ↔ rb' = rb)).
Proof.
  apply (same_colour_same_anchor nb_XSIZE nb_YSIZE nb_bricks nb_pairs
           nb_program nb_value "c1" "c4"); by_evaluation.
Defined.

(** ** The variables of the program and the objective *)

Lemma elem_of_variables_program X Y bricks pairs var :
  positions X Y = [] ∨ Forall (λ bb, ¬ unknown_pair bricks bb) pairs →
  var ∈ variables (program X Y bricks pairs) ↔
  ∃ x y b rb, (x, y) ∈ positions X Y ∧ b ∈ bricks ∧ rb ∈ range X ∧
              var = brick_var x y b rb.
Proof.
  intros Hknown. rewrite elem_of_variables. split.
  - intros [[c Hobj]|(k & c & Hk & Hin)].
    + simpl in Hobj. apply list_elem_of_fmap in Hobj as ([[[x y] b] rb] & Heq & Ht).
      apply elem_of_tuples in Ht as (? & ? & ?). exists x, y, b, rb. by simplify_eq.
    + simpl in Hk. rewrite !elem_of_app in Hk. destruct Hk as [Hk|[Hk|[Hk|Hk]]].
      * apply list_elem_of_bind in Hk as ([x y] & ->%list_elem_of_singleton & Hp).
        apply list_elem_of_fmap in Hin as ([b rb] & Heq & [??]%elem_of_candidates).
        exists x, y, b, rb. by simplify_eq.
      * apply list_elem_of_bind in Hk as (b & ->%list_elem_of_singleton & Hb).
        apply list_elem_of_fmap in Hin as ([[x y] rb] & Heq & [??]%elem_of_places).
        exists x, y, b, rb. by simplify_eq.
      * apply list_elem_of_bind in Hk as (x & Hk & Hx).
        apply list_elem_of_bind in Hk as (rb & Hk & Hrb).
        case_decide; [|by apply not_elem_of_nil in Hk].
        apply list_elem_of_singleton in Hk as ->.
        apply list_elem_of_fmap in Hin as ([y b] & Heq & [??]%elem_of_column).
        exists x, y, b, rb. rewrite elem_of_positions. by simplify_eq.
      * apply list_elem_of_bind in Hk as ([b1 b2] & Hk & Hbb).
        apply list_elem_of_bind in Hk as (rb & ->%list_elem_of_singleton & Hrb).
        assert (∀ p, p ∈ positions X Y → b1 ∈ bricks ∧ b2 ∈ bricks) as Hbricks.
        { intros p Hp. destruct Hknown as [Hnil|Hall].
          - rewrite Hnil in Hp. by apply not_elem_of_nil in Hp.
          - rewrite Forall_forall in Hall. specialize (Hall _ Hbb).
            unfold unknown_pair in Hall. simpl in Hall.
            split; [destruct (decide (b1 ∈ bricks))|destruct (decide (b2 ∈ bricks))];
              naive_solver. }
        unfold cohesion_constraint in Hin. simpl in Hin.
        apply elem_of_app in Hin as [Hin|Hin];
          apply list_elem_of_fmap in Hin as ([x y] & Heq & Hp);
          destruct (Hbricks _ Hp); simplify_eq.
        -- by exists x, y, b1, rb.
        -- by exists x, y, b2, rb.
  - intros (x & y & b & rb & Hp & Hb & Hrb & ->). left. exists (penalty x rb). simpl.
    apply list_elem_of_fmap. exists (x, y, b, rb). split; [done|]. by apply elem_of_tuples.
Qed.

Lemma objective_value_program X Y bricks pairs a :
  objective_value a (program X Y bricks pairs) =
  10 * sumZ (λ t, Z.abs (t.2 - t.1.1.1) * a (brick_var t.1.1.1 t.1.1.2 t.1.2 t.2))
            (tuples X Y bricks).
Proof.
  unfold objective_value. simpl. unfold objective_terms. rewrite eval_fmap, <-sumZ_mul.
  apply sumZ_ext. intros t _. unfold penalty. simpl. lia.
Qed.

(** C10: under any 0/1 assignment the objective value is a non-negative
    multiple of 10, it is 0 exactly when every variable set to 1 has
    [x = rb], and so it is bounded below by 0. *)
Theorem objective_value_multiple_of_10 X Y bricks pairs m a :
  build X Y bricks pairs = Ok m →
  (∀ var, var ∈ variables m → a var = 0 ∨ a var = 1) →
  (∃ k, 0 ≤ k ∧ objective_value a m = 10 * k) ∧
  (objective_value a m = 0 ↔
   ∀ var, var ∈ variables m → a var = 1 → var_x var = var_rb var) ∧
  0 ≤ objective_value a m.
Proof.
  intros [-> Hknown]%build_Ok_inv Hbin. rewrite objective_value_program.
  set (T := λ t : Z * Z * string * Z,
         Z.abs (t.2 - t.1.1.1) * a (brick_var t.1.1.1 t.1.1.2 t.1.2 t.2)).
  assert (∀ t, t ∈ tuples X Y bricks →
            brick_var t.1.1.1 t.1.1.2 t.1.2 t.2 ∈ variables (program X Y bricks pairs))
    as Hvar.
  { intros [[[x y] b] rb] (? & ? & ?)%elem_of_tuples.
    apply elem_of_variables_program; [done|]. by exists x, y, b, rb. }
  assert (∀ t, t ∈ tuples X Y bricks → 0 ≤ T t) as Hpos.
  { intros t Ht. unfold T. destruct (Hbin _ (Hvar t Ht)) as [->| ->]; lia. }
  pose proof (sumZ_nonneg T (tuples X Y bricks) Hpos) as Hk.
  split_and!; [by exists (sumZ T (tuples X Y bricks))| |lia].
  split.
  - intros Hzero var Hin Hone.
    apply elem_of_variables_program in Hin as (x & y & b & rb & Hp & Hb & Hrb & ->);
      [|done].
    assert (T (x, y, b, rb) = 0) as HT.
    { apply (sumZ_zero_inv T (tuples X Y bricks) Hpos); [lia|].
      by apply elem_of_tuples. }
    unfold T in HT. simpl in HT. rewrite Hone in HT. simpl. lia.
  - intros Hdiag. rewrite (sumZ_ext T (λ _, 0)); [by rewrite sumZ_zeros|].
    intros t Ht. unfold T. destruct (Hbin _ (Hvar t Ht)) as [->|Hone]; [lia|].
    specialize (Hdiag _ (Hvar t Ht) Hone). simpl in Hdiag. rewrite Hdiag. lia.
Qed.

Lemma objective_value_multiple_of_10_witness :
  (∃ k, 0 ≤ k ∧ objective_value nb_value nb_program = 10 * k) ∧
  (objective_value nb_value nb_program = 0 ↔
   ∀ var, var ∈ variables nb_program → nb_value var = 1 → var_x var = var_rb var) ∧
  0 ≤ objective_value nb_value nb_program.
Proof.
  apply (objective_value_multiple_of_10 nb_XSIZE nb_YSIZE nb_bricks nb_pairs
           nb_program nb_value); [by_evaluation|].
  intros var _. unfold nb_value. case_decide; [by right|by left].
Defined.

(** ** When building fails *)

(** C4 (as the code has it): building validates nothing.  It fails
    exactly when the grid is not empty and some pair names a brick that
    is not in [bricks]; the failure is the [KeyError] of that brick,
    raised by the subscript in Condition 4.  Every other description is
    built, duplicates and lack of room included, and for those the
    program has no feasible assignment. *)
Theorem build_fails_on_unknown_pair_only X Y bricks pairs :
  ((∃ e, build X Y bricks pairs = Raise e) ↔
   (0 < X)%nat ∧ (0 < Y)%nat ∧ Exists (unknown_pair bricks) pairs) ∧
  (∀ e, build X Y bricks pairs = Raise e →
     ∃ b, e = KeyError (StrKey b) ∧ (b ∉ bricks) ∧
          ∃ bb, bb ∈ pairs ∧ (b = bb.1 ∨ b = bb.2)) ∧
  (∀ m, build X Y bricks pairs = Ok m → m = program X Y bricks pairs) ∧
  (∀ m a, build X Y bricks pairs = Ok m → feasible m a →
     NoDup bricks ∧ (length bricks ≤ X * Y)%nat).
Proof.
  assert (positions X Y ≠ [] ↔ (0 < X)%nat ∧ (0 < Y)%nat) as Hgrid.
  { rewrite positions_nil. lia. }
  split_and!.
  - split.
    + intros [e He].
      destruct (decide (positions X Y = [])) as [Hnil|Hpos].
      { rewrite build_Ok in He by (by left). done. }
      destruct (decide (Exists (unknown_pair bricks) pairs)) as [Hex|Hall].
      { apply Hgrid in Hpos. by destruct Hpos. }
      apply not_Exists_Forall in Hall; [|apply _].
      rewrite build_Ok in He by (by right). done.
    + intros (HX & HY & Hex).
      destruct (build_Raise X Y bricks pairs) as (b & Hr & _); [|done|by eexists].
      apply Hgrid. done.
  - intros e He.
    destruct (decide (positions X Y = [])) as [Hnil|Hpos].
    { rewrite build_Ok in He by (by left). done. }
    destruct (decide (Exists (unknown_pair bricks) pairs)) as [Hex|Hall].
    + destruct (build_Raise X Y bricks pairs Hpos Hex) as (b & Hr & Hb & Hbb).
      exists b. split; [congruence|done].
    + apply not_Exists_Forall in Hall; [|apply _].
      rewrite build_Ok in He by (by right). done.
  - by intros m [-> _]%build_Ok_inv.
  - intros m a [-> _]%build_Ok_inv Hfeas. split.
    + by eapply feasible_NoDup_bricks.
    + by eapply feasible_capacity.
Qed.

(** The claim as stated fails: a description with a duplicate brick, and
    one with more bricks than cells, are malformed and yet built. *)
Lemma malformed_description_is_built :
  (malformed 1 1 ["a"; "a"] [] ∧
   build 1 1 ["a"; "a"] [] = Ok (program 1 1 ["a"; "a"] [])) ∧
  (malformed 1 1 ["a"; "b"] [] ∧
   build 1 1 ["a"; "b"] [] = Ok (program 1 1 ["a"; "b"] [])).
Proof. split; (split; [by_evaluation|by_evaluation]). Qed.

(** ** The display loop *)

Lemma append_cons c s1 s2 : String c s1 +:+ s2 = String c (s1 +:+ s2).
Proof. reflexivity. Qed.

Lemma append_assoc s1 s2 s3 : (s1 +:+ s2) +:+ s3 = s1 +:+ (s2 +:+ s3).
Proof. induction s1 as [|c s1 IH]; [done|]. by rewrite !append_cons, IH. Qed.

Lemma append_nil_r s : s +:+ "" = s.
Proof. induction s as [|c s IH]; [done|]. by rewrite append_cons, IH. Qed.

Lemma join_app l1 l2 : join (l1 ++ l2) = join l1 +:+ join l2.
Proof.
  induction l1 as [|s l1 IH]; [done|].
  change (s +:+ join (l1 ++ l2) = (s +:+ join l1) +:+ join l2).
  by rewrite IH, append_assoc.
Qed.

Lemma join_bind {A} (h : A → string) {B} (f : B → list A) l :
  join (h <$> (l ≫= f)) = join ((λ x, join (h <$> f x)) <$> l).
Proof.
  induction l as [|x l IH]; csimpl; [done|]. by rewrite fmap_app, join_app, IH.
Qed.

Lemma join_filter {A} (P : A → Prop) `{!∀ x, Decision (P x)} (h : A → string) l :
  join (h <$> filter P l) = join ((λ x, if decide (P x) then h x else "") <$> l).
Proof.
  induction l as [|x l IH]; [done|]. rewrite filter_cons. csimpl.
  destruct (decide (P x)); csimpl; by rewrite IH.
Qed.

Lemma join_ext {A} (g h : A → string) l :
  (∀ x, x ∈ l → g x = h x) → join (g <$> l) = join (h <$> l).
Proof.
  induction l as [|x l IH]; intros Hgh; csimpl; [done|].
  rewrite Hgh by left. rewrite IH; [done|]. intros z Hz. apply Hgh. by right.
Qed.

(** A loop whose body appends to the row appends every iteration's text. *)
Lemma for_each_append {A} (body : string → A → result string) (g : A → string) l row :
  (∀ row x, x ∈ l → body row x = Ok (row +:+ g x)) →
  for_each l body row = Ok (row +:+ join (g <$> l)).
Proof.
  revert row. induction l as [|x l IH]; intros row Hbody; csimpl.
  - by rewrite append_nil_r.
  - rewrite Hbody by left. rewrite bind_Ok, IH.
    + by rewrite append_assoc.
    + intros row' z Hz. apply Hbody. by right.
Qed.

Lemma for_each_snoc {A B} (body : list B → A → result (list B)) (g : A → B) l out :
  (∀ out x, x ∈ l → body out x = Ok (out ++ [g x])) →
  for_each l body out = Ok (out ++ (g <$> l)).
Proof.
  revert out. induction l as [|x l IH]; intros out Hbody; csimpl.
  - by rewrite app_nil_r.
  - rewrite Hbody by left. rewrite bind_Ok, IH.
    + by rewrite <-app_assoc.
    + intros out' z Hz. apply Hbody. by right.
Qed.

(** The text of a cell: the hits of the cell, in loop order *)
Lemma hits_text X bricks a x y :
  join (fmt <$> hits X bricks a x y) =
  join ((λ b, join ((λ rb, if decide (a (brick_var x y b rb) = 1)
                           then fmt (b, rb) else "") <$> range X)) <$> bricks).
Proof.
  unfold hits. rewrite (join_filter (λ c, a (brick_var x y c.1 c.2) = 1)).
  unfold candidates. rewrite join_bind. apply join_ext. intros b _.
  rewrite join_bind. apply join_ext. intros rb _. simpl. by rewrite append_nil_r.
Qed.

(** The display loop never fails, and prints [printed_lines]. *)
Lemma display_Ok X Y bricks a :
  display X Y bricks a = Ok (printed_lines X Y bricks a).
Proof.
  unfold display, printed_lines.
  rewrite (for_each_snoc _
    (λ y, join ((λ x, join (fmt <$> hits X bricks a x y) +:+ tab) <$> range X)));
    [done|].
  intros out y Hy.
  rewrite (for_each_append _ (λ x, join (fmt <$> hits X bricks a x y) +:+ tab));
    [done|].
  intros row x Hx.
  rewrite (for_each_append _
    (λ b, join ((λ rb, if decide (a (brick_var x y b rb) = 1)
                       then fmt (b, rb) else "") <$> range X))).
  - rewrite bind_Ok, <-hits_text. unfold mret, result_ret. by rewrite append_assoc.
  - intros row' b Hb. apply for_each_append. intros row'' rb Hrb.
    rewrite v_at_Ok by done. rewrite bind_Ok. cbn zeta.
    case_decide; [done|]. unfold mret, result_ret. by rewrite append_nil_r.
Qed.

Lemma list_find_head {A} (P : A → Prop) `{!∀ x, Decision (P x)} l :
  snd <$> list_find P l = head (filter P l).
Proof.
  induction l as [|x l IH]; [done|]. cbn [list_find]. rewrite filter_cons.
  destruct (decide (P x)); [done|]. rewrite <-IH. by destruct (list_find P l).
Qed.

Lemma length_filter_ones {A} (f : A → Z) l :
  (∀ x, x ∈ l → 0 ≤ f x) → Z.of_nat (length (filter (λ x, f x = 1) l)) ≤ sumZ f l.
Proof.
  induction l as [|x l IH]; intros Hpos; [done|]. rewrite filter_cons. simpl.
  assert (0 ≤ f x) by (apply Hpos; left).
  assert (Z.of_nat (length (filter (λ x, f x = 1) l)) ≤ sumZ f l) as Hl.
  { apply IH. intros z Hz. apply Hpos. by right. }
  destruct (decide (f x = 1)); simpl; lia.
Qed.

Lemma elem_of_hits X bricks a x y b rb :
  (b, rb) ∈ hits X bricks a x y ↔
  b ∈ bricks ∧ rb ∈ range X ∧ a (brick_var x y b rb) = 1.
Proof.
  unfold hits. rewrite list_elem_of_filter, elem_of_candidates. simpl. tauto.
Qed.

(** C5 (as the code has it): the display loop has no check and never
    fails.  It prints, for every cell, each (brick, rb) whose variable
    is 1, in loop order and one after the other, then a tab; a cell with
    two such variables is printed with both. *)
Theorem display_prints_every_hit X Y bricks a :
  display X Y bricks a = Ok (printed_lines X Y bricks a) ∧
  length (printed_lines X Y bricks a) = Y ∧
  ∀ x y b rb, (b, rb) ∈ hits X bricks a x y ↔
              b ∈ bricks ∧ rb ∈ range X ∧ a (brick_var x y b rb) = 1.
Proof.
  split_and!.
  - apply display_Ok.
  - unfold printed_lines. by rewrite length_fmap, length_range.
  - intros x y b rb. apply elem_of_hits.
Qed.

(** The claim as stated fails: with two variables equal to 1 in the one
    cell, the loop returns a line instead of an error. *)
Lemma display_two_hits_no_error :
  hits 1 ["a"; "b"] all_ones 0 0 = [("a", 0); ("b", 0)] ∧
  display 1 1 ["a"; "b"] all_ones = Ok ["a[0]b[0]" +:+ tab].
Proof. split; by_evaluation. Qed.

(** ** The printed grid *)

Section grid.
Context (X Y : nat) (bricks : list string) (pairs : list (string * string)).
Context (a : LpVariable → Z).
Hypothesis Hfeas : feasible (program X Y bricks pairs) a.

Lemma hits_at_most_one x y :
  (x, y) ∈ positions X Y → (length (hits X bricks a x y) ≤ 1)%nat.
Proof using Hfeas.
  intros Hp. unfold hits.
  pose proof (length_filter_ones (λ c, a (brick_var x y c.1 c.2)) (candidates X bricks))
    as Hlen.
  pose proof (feasible_occupancy X Y bricks pairs a Hfeas x y Hp) as Hocc.
  assert (Z.of_nat (length (filter (λ c, a (brick_var x y c.1 c.2) = 1)
                                   (candidates X bricks))) ≤ 1); [|lia].
  etrans; [apply Hlen|done].
  intros [b rb] [Hb Hrb]%elem_of_candidates.
  by apply (feasible_bounds X Y bricks pairs a Hfeas).
Qed.

Lemma cell_text x y :
  (x, y) ∈ positions X Y →
  join (fmt <$> hits X bricks a x y) = render (placement_at X bricks a x y).
Proof using Hfeas.
  intros Hp. pose proof (hits_at_most_one x y Hp) as Hlen.
  unfold placement_at. rewrite list_find_head. fold (hits X bricks a x y).
  destruct (hits X bricks a x y) as [|c [|c' l]]; simpl in *; [done| |lia].
  apply append_nil_r.
Qed.

Lemma placement_at_Some x y b rb :
  (x, y) ∈ positions X Y →
  placement_at X bricks a x y = Some (b, rb) ↔
  b ∈ bricks ∧ rb ∈ range X ∧ a (brick_var x y b rb) = 1.
Proof using Hfeas.
  intros Hp. unfold placement_at. split.
  - intros [[Hb Hrb]%elem_of_candidates Hone]%list_find_Some_elem. done.
  - intros (Hb & Hrb & Hone). apply list_find_unique.
    + by apply elem_of_candidates.
    + done.
    + intros [b' rb'] [Hb' Hrb']%elem_of_candidates Hone'. simpl in Hone'.
      by destruct (cell_single X Y bricks pairs a Hfeas x y b' rb' b rb) as [-> ->].
Qed.

Lemma placement_at_None x y :
  (x, y) ∈ positions X Y →
  placement_at X bricks a x y = None ↔
  ∀ b rb, b ∈ bricks → rb ∈ range X → a (brick_var x y b rb) = 0.
Proof using Hfeas.
  intros Hp. unfold placement_at. rewrite fmap_None, list_find_None, Forall_forall.
  split.
  - intros Hnone b rb Hb Hrb.
    pose proof (feasible_bounds X Y bricks pairs a Hfeas x y b rb Hp Hb Hrb).
    assert (a (brick_var x y b rb) ≠ 1); [|lia].
    apply (Hnone (b, rb)). by apply elem_of_candidates.
  - intros Hzero [b rb] [Hb Hrb]%elem_of_candidates. simpl.
    rewrite (Hzero b rb) by done. lia.
Qed.
End grid.

(** C8 (as the code has it): for a feasible assignment of the built
    program the output has one line per row, rows in ascending [y]; a
    line lists the cells in ascending [x], each cell followed by a tab
    (the last one too); a cell is [<brick>[<rb>]] for its variable equal
    to 1, and empty when it has none. *)
Theorem display_grid X Y bricks pairs m a :
  build X Y bricks pairs = Ok m → feasible m a →
  display X Y bricks a = Ok (grid_lines X Y bricks a) ∧
  length (grid_lines X Y bricks a) = Y ∧
  (∀ x y, x ∈ range X → y ∈ range Y →
     (∀ b rb, placement_at X bricks a x y = Some (b, rb) ↔
              b ∈ bricks ∧ rb ∈ range X ∧ a (brick_var x y b rb) = 1) ∧
     (placement_at X bricks a x y = None ↔
      ∀ b rb, b ∈ bricks → rb ∈ range X → a (brick_var x y b rb) = 0)).
Proof.
  intros [-> _]%build_Ok_inv Hfeas. split_and!.
  - rewrite display_Ok. f_equal. unfold printed_lines, grid_lines.
    apply list_fmap_ext. intros i y Hy%list_elem_of_lookup_2. f_equal.
    apply list_fmap_ext. intros j x Hx%list_elem_of_lookup_2. f_equal.
    apply (cell_text X Y bricks pairs a Hfeas). by apply elem_of_positions.
  - unfold grid_lines. by rewrite length_fmap, length_range.
  - intros x y Hx Hy.
    assert ((x, y) ∈ positions X Y) as Hp by (by apply elem_of_positions).
    split.
    + intros b rb. by apply (placement_at_Some X Y bricks pairs a Hfeas).
    + by apply (placement_at_None X Y bricks pairs a Hfeas).
Qed.

Lemma display_grid_witness :
  display nb_XSIZE nb_YSIZE nb_bricks nb_value =
    Ok (grid_lines nb_XSIZE nb_YSIZE nb_bricks nb_value) ∧
  length (grid_lines nb_XSIZE nb_YSIZE nb_bricks nb_value) = nb_YSIZE ∧
  (∀ x y, x ∈ range nb_XSIZE → y ∈ range nb_YSIZE →
     (∀ b rb, placement_at nb_XSIZE nb_bricks nb_value x y = Some (b, rb) ↔
              b ∈ nb_bricks ∧ rb ∈ range nb_XSIZE ∧ nb_value (brick_var x y b rb) = 1) ∧
     (placement_at nb_XSIZE nb_bricks nb_value x y = None ↔
      ∀ b rb, b ∈ nb_bricks → rb ∈ range nb_XSIZE →
              nb_value (brick_var x y b rb) = 0)).
Proof.
  apply (display_grid nb_XSIZE nb_YSIZE nb_bricks nb_pairs nb_program nb_value);
    by_evaluation.
Defined.

(** The claim as stated fails on the notebook's own run: the lines
    printed are the recorded ones, which end in a tab, and not the cells
    joined by tabs. *)
Lemma display_not_tab_separated :
  build nb_XSIZE nb_YSIZE nb_bricks nb_pairs = Ok nb_program ∧
  feasible nb_program nb_value ∧
  display nb_XSIZE nb_YSIZE nb_bricks nb_value = Ok nb_stdout ∧
  nb_stdout ≠ tab_separated_grid nb_XSIZE nb_YSIZE nb_bricks nb_value.
Proof. split_and!; by_evaluation. Qed.

(** ** The same-colour pairs of the notebook *)

Lemma elem_of_cohesion X Y bricks pairs b1 b2 rb :
  (b1, b2) ∈ pairs → rb ∈ range X →
  cohesion_constraint X Y b1 b2 rb ∈ constraints (program X Y bricks pairs).
Proof.
  intros Hbb Hrb. simpl. do 3 (apply elem_of_app; right).
  unfold cohesion. apply list_elem_of_bind. exists (b1, b2). split; [|done].
  apply list_elem_of_bind. exists rb. split; [|done]. by apply list_elem_of_singleton.
Qed.

(** C9: the notebook's pairs are exactly the unordered pairs of distinct
    bricks with the same letter prefix (3 for a, 1 for b, 6 for c, 1 for
    d, none with e1).  Hence in the program that [build] returns for the
    notebook's data every two bricks of one prefix have a cohesion
    constraint of their own for every [rb], and in every feasible
    assignment of it they have the same column sums and the same anchor,
    by that one constraint and no chain. *)
Theorem nb_pairs_same_prefix :
  nb_pairs ≡ₚ same_prefix_pairs nb_bricks ∧
  (∀ b1 b2, b1 ∈ nb_bricks → b2 ∈ nb_bricks → b1 ≠ b2 →
     letter_prefix b1 = letter_prefix b2 →
     (b1, b2) ∈ nb_pairs ∨ (b2, b1) ∈ nb_pairs) ∧
  (∀ b1 b2, (b1, b2) ∈ nb_pairs →
     b1 ∈ nb_bricks ∧ b2 ∈ nb_bricks ∧ b1 ≠ b2 ∧ letter_prefix b1 = letter_prefix b2) ∧
  (length (filter (λ bb, letter_prefix bb.1 = "a") nb_pairs) = 3 ∧
   length (filter (λ bb, letter_prefix bb.1 = "b") nb_pairs) = 1 ∧
   length (filter (λ bb, letter_prefix bb.1 = "c") nb_pairs) = 6 ∧
   length (filter (λ bb, letter_prefix bb.1 = "d") nb_pairs) = 1 ∧
   length nb_pairs = 11)%nat ∧
  Forall (λ bb, bb.1 ≠ "e1" ∧ bb.2 ≠ "e1") nb_pairs ∧
  ∃ m, build nb_XSIZE nb_YSIZE nb_bricks nb_pairs = Ok m ∧
    (∀ b1 b2 rb, b1 ∈ nb_bricks → b2 ∈ nb_bricks → b1 ≠ b2 →
       letter_prefix b1 = letter_prefix b2 → rb ∈ range nb_XSIZE →
       cohesion_constraint nb_XSIZE nb_YSIZE b1 b2 rb ∈ constraints m ∨
       cohesion_constraint nb_XSIZE nb_YSIZE b2 b1 rb ∈ constraints m) ∧
    (∀ a, feasible m a →
       ∀ b1 b2, b1 ∈ nb_bricks → b2 ∈ nb_bricks →
         letter_prefix b1 = letter_prefix b2 →
         (∀ rb, rb ∈ range nb_XSIZE →
            column_sum nb_XSIZE nb_YSIZE a b1 rb = column_sum nb_XSIZE nb_YSIZE a b2 rb) ∧
         anchor_of nb_XSIZE nb_YSIZE a b1 = anchor_of nb_XSIZE nb_YSIZE a b2).
Proof.
  assert (∀ b1 b2, b1 ∈ nb_bricks → b2 ∈ nb_bricks → b1 ≠ b2 →
     letter_prefix b1 = letter_prefix b2 →
     (b1, b2) ∈ nb_pairs ∨ (b2, b1) ∈ nb_pairs) as Hall.
  { assert (Forall (λ b1, Forall (λ b2, b1 ≠ b2 →
       letter_prefix b1 = letter_prefix b2 →
       (b1, b2) ∈ nb_pairs ∨ (b2, b1) ∈ nb_pairs) nb_bricks) nb_bricks) as HF
      by by_evaluation.
    intros b1 b2 Hb1 Hb2. rewrite Forall_forall in HF. specialize (HF b1 Hb1).
    rewrite Forall_forall in HF. by apply HF. }
  split; [|split; [|split; [|split; [|split]]]].
  - apply NoDup_Permutation; [by_evaluation..|].
    assert (Forall (.∈ same_prefix_pairs nb_bricks) nb_pairs) as H1 by by_evaluation.
    assert (Forall (.∈ nb_pairs) (same_prefix_pairs nb_bricks)) as H2 by by_evaluation.
    rewrite Forall_forall in H1, H2. intros bb. split; [apply H1|apply H2].
  - done.
  - assert (Forall (λ bb, bb.1 ∈ nb_bricks ∧ bb.2 ∈ nb_bricks ∧ bb.1 ≠ bb.2 ∧
                          letter_prefix bb.1 = letter_prefix bb.2) nb_pairs) as HF
      by by_evaluation.
    rewrite Forall_forall in HF. intros b1 b2 Hbb. apply (HF _ Hbb).
  - split_and!; by_evaluation.
  - by_evaluation.
  - exists nb_program. split; [by_evaluation|]. split.
    + intros b1 b2 rb Hb1 Hb2 Hne Hpre Hrb.
      destruct (Hall b1 b2 Hb1 Hb2 Hne Hpre); [left|right]; by apply elem_of_cohesion.
    + intros a Hfeas b1 b2 Hb1 Hb2 Hpre.
      assert (∀ rb, rb ∈ range nb_XSIZE →
        column_sum nb_XSIZE nb_YSIZE a b1 rb = column_sum nb_XSIZE nb_YSIZE a b2 rb)
        as Hcol.
      { intros rb Hrb. destruct (decide (b1 = b2)) as [->|Hne]; [done|].
        destruct (Hall b1 b2 Hb1 Hb2 Hne Hpre) as [Hbb|Hbb].
        - by apply (feasible_cohesion nb_XSIZE nb_YSIZE nb_bricks nb_pairs a Hfeas).
        - symmetry.
          by apply (feasible_cohesion nb_XSIZE nb_YSIZE nb_bricks nb_pairs a Hfeas). }
      split; [done|].
      unfold anchor_of. f_equal. apply list_find_ext_in. intros rb Hrb.
      by rewrite Hcol.
Qed.

(** ** The variable domain *)

Lemma remove_dups_NoDup `{EqDecision A} (l : list A) : NoDup l → remove_dups l = l.
Proof.
  induction 1 as [|x l Hx Hnd IH]; [done|]. cbn [remove_dups].
  destruct (decide_rel elem_of x l); [done|]. by rewrite IH.
Qed.

Lemma bind_Permutation_ext {A B} (f g : A → list B) l :
  (∀ x, x ∈ l → f x ≡ₚ g x) → l ≫= f ≡ₚ l ≫= g.
Proof.
  induction l as [|x l IH]; intros Hfg; csimpl; [done|].
  rewrite (Hfg x) by left. rewrite IH; [done|]. intros z Hz. apply Hfg. by right.
Qed.

Lemma dict_of_list_to_map `{Countable K} {V} (index : list K) (f : K → V) :
  dict_of index f = list_to_map ((λ k, (k, f k)) <$> remove_dups index).
Proof.
  assert (((λ k, (k, f k)) <$> remove_dups index).*1 = remove_dups index) as Hfst.
  { rewrite <-list_fmap_compose. apply list_fmap_id. }
  apply map_eq. intros k. apply option_eq. intros x.
  rewrite lookup_dict_of, <-elem_of_list_to_map
    by (rewrite Hfst; apply NoDup_remove_dups).
  rewrite list_elem_of_fmap. setoid_rewrite elem_of_remove_dups. split.
  - case_decide; [|done]. intros [= <-]. by exists k.
  - intros (k' & [= -> ->] & Hin). by rewrite decide_True.
Qed.

Lemma dict_values_dict_of `{Countable K} {V} (index : list K) (f : K → V) :
  dict_values (dict_of index f) ≡ₚ f <$> remove_dups index.
Proof.
  unfold dict_values. rewrite dict_of_list_to_map.
  rewrite map_to_list_to_map.
  - by rewrite <-list_fmap_compose.
  - rewrite <-list_fmap_compose. rewrite list_fmap_id. apply NoDup_remove_dups.
Qed.

Lemma v_variables_domain X Y bricks :
  v_variables (v X Y bricks) ≡ₚ domain_variables X Y bricks.
Proof.
  unfold v_variables, v, LpVariable_dicts, domain_variables.
  rewrite dict_values_dict_of, list_fmap_bind, remove_dups_NoDup by apply NoDup_range.
  apply bind_Permutation_ext. intros x _. simpl.
  rewrite dict_values_dict_of, list_fmap_bind, remove_dups_NoDup by apply NoDup_range.
  apply bind_Permutation_ext. intros y _. simpl.
  rewrite dict_values_dict_of, list_fmap_bind.
  apply bind_Permutation_ext. intros b _. simpl.
  by rewrite dict_values_dict_of, remove_dups_NoDup by apply NoDup_range.
Qed.

Lemma elem_of_domain_variables X Y bricks var :
  var ∈ domain_variables X Y bricks ↔
  ∃ x y b rb, x ∈ range X ∧ y ∈ range Y ∧ b ∈ bricks ∧ rb ∈ range X ∧
              var = brick_var x y b rb.
Proof.
  unfold domain_variables. split.
  - intros (x & (y & (b & (rb & -> & Hrb)%list_elem_of_fmap & Hb)
                   %list_elem_of_bind & Hy)%list_elem_of_bind & Hx)%list_elem_of_bind.
    rewrite elem_of_remove_dups in Hb. by exists x, y, b, rb.
  - intros (x & y & b & rb & Hx & Hy & Hb & Hrb & ->).
    apply list_elem_of_bind. exists x. split; [|done].
    apply list_elem_of_bind. exists y. split; [|done].
    apply list_elem_of_bind. exists b. split; [|by apply elem_of_remove_dups].
    apply list_elem_of_fmap. by exists rb.
Qed.

Lemma NoDup_domain_variables X Y bricks : NoDup (domain_variables X Y bricks).
Proof.
  unfold domain_variables.
  apply NoDup_bind; [| |apply NoDup_range].
  { intros x1 x2 var _ _
      (y1 & (b1 & (rb1 & -> & _)%list_elem_of_fmap & _)%list_elem_of_bind & _)%list_elem_of_bind
      (y2 & (b2 & (rb2 & Heq & _)%list_elem_of_fmap & _)%list_elem_of_bind & _)%list_elem_of_bind.
    by simplify_eq. }
  intros x _. apply NoDup_bind; [| |apply NoDup_range].
  { intros y1 y2 var _ _
      (b1 & (rb1 & -> & _)%list_elem_of_fmap & _)%list_elem_of_bind
      (b2 & (rb2 & Heq & _)%list_elem_of_fmap & _)%list_elem_of_bind.
    by simplify_eq. }
  intros y _. apply NoDup_bind; [| |apply NoDup_remove_dups].
  { intros b1 b2 var _ _ (rb1 & -> & _)%list_elem_of_fmap (rb2 & Heq & _)%list_elem_of_fmap.
    by simplify_eq. }
  intros b _. apply NoDup_fmap_2_strong; [|apply NoDup_range].
  intros rb1 rb2 _ _ Heq. by simplify_eq.
Qed.

Lemma length_domain_variables X Y bricks :
  length (domain_variables X Y bricks) = (X * Y * length (remove_dups bricks) * X)%nat.
Proof.
  unfold domain_variables.
  rewrite (length_bind_const _ _ (Y * (length (remove_dups bricks) * X))%nat).
  { rewrite length_range. lia. }
  intros x _. rewrite (length_bind_const _ _ (length (remove_dups bricks) * X)%nat).
  { by rewrite length_range. }
  intros y _. rewrite (length_bind_const _ _ X); [done|].
  intros b _. by rewrite length_fmap, length_range.
Qed.

Lemma objective_value_sums X Y bricks pairs a :
  objective_value a (program X Y bricks pairs) =
  sumZ (λ x, sumZ (λ y, sumZ (λ b, sumZ (λ rb,
    10 * Z.abs (rb - x) * a (brick_var x y b rb)) (range X)) bricks) (range Y)) (range X).
Proof.
  unfold objective_value. simpl. unfold objective_terms. rewrite eval_fmap.
  unfold tuples, positions. rewrite !sumZ_bind.
  apply sumZ_ext. intros x _. rewrite sumZ_bind.
  apply sumZ_ext. intros y _. simpl. rewrite sumZ_bind, Z.add_0_r.
  apply sumZ_ext. intros b _. rewrite sumZ_bind.
  apply sumZ_ext. intros rb _. simpl. unfold penalty. lia.
Qed.

(** C7: the objective of the built program is to minimize the sum, over
    [x], [y], [brick in bricks] and [rb], of
    [penalty(x, rb) * v[x][y][brick][rb]], and nothing else.  The
    variables are the 0/1 integer variables held in [v], one per path
    [(x, y, brick, rb)], and for a list of bricks without repetition
    there are [XSIZE*YSIZE*len(bricks)*XSIZE] of them.  (A repeated
    brick is no problem description; [v] would hold it once, which the
    count with [remove_dups] records.) *)
Theorem objective_and_variable_domain X Y bricks pairs m :
  build X Y bricks pairs = Ok m →
  psense m = LpMinimize ∧
  objective m =
    (λ t, (10 * Z.abs (t.2 - t.1.1.1), brick_var t.1.1.1 t.1.1.2 t.1.2 t.2))
      <$> tuples X Y bricks ∧
  (∀ a, objective_value a m =
     sumZ (λ x, sumZ (λ y, sumZ (λ b, sumZ (λ rb,
       10 * Z.abs (rb - x) * a (brick_var x y b rb)) (range X)) bricks) (range Y))
          (range X)) ∧
  NoDup (v_variables (v X Y bricks)) ∧
  (∀ var, var ∈ v_variables (v X Y bricks) ↔
     ∃ x y b rb, x ∈ range X ∧ y ∈ range Y ∧ b ∈ bricks ∧ rb ∈ range X ∧
                 var = LpVar x y b rb 0 1 LpInteger) ∧
  (∀ var, var ∈ variables m ↔ var ∈ v_variables (v X Y bricks)) ∧
  length (v_variables (v X Y bricks)) = (X * Y * length (remove_dups bricks) * X)%nat ∧
  (NoDup bricks →
   length (v_variables (v X Y bricks)) = (X * Y * length bricks * X)%nat).
Proof.
  intros [-> Hknown]%build_Ok_inv.
  pose proof (v_variables_domain X Y bricks) as Hperm.
  assert (∀ var, var ∈ v_variables (v X Y bricks) ↔
     ∃ x y b rb, x ∈ range X ∧ y ∈ range Y ∧ b ∈ bricks ∧ rb ∈ range X ∧
                 var = LpVar x y b rb 0 1 LpInteger) as Hin.
  { intros var. rewrite Hperm. apply elem_of_domain_variables. }
  split; [done|]. split; [done|]. split; [|split; [|split; [|split; [|split]]]].
  - intros a. apply objective_value_sums.
  - rewrite Hperm. apply NoDup_domain_variables.
  - done.
  - intros var. rewrite Hin, elem_of_variables_program by done.
    split; intros (x & y & b & rb & H); exists x, y, b, rb.
    + destruct H as ([??]%elem_of_positions & ? & ? & ?). done.
    + destruct H as (? & ? & ? & ? & ?). by rewrite elem_of_positions.
  - rewrite Hperm. apply length_domain_variables.
  - intros Hnd. by rewrite Hperm, length_domain_variables, remove_dups_NoDup.
Qed.

Lemma objective_and_variable_domain_witness :
  psense nb_program = LpMinimize ∧
  objective nb_program =
    (λ t, (10 * Z.abs (t.2 - t.1.1.1), brick_var t.1.1.1 t.1.1.2 t.1.2 t.2))
      <$> tuples nb_XSIZE nb_YSIZE nb_bricks ∧
  (∀ a, objective_value a nb_program =
     sumZ (λ x, sumZ (λ y, sumZ (λ b, sumZ (λ rb,
       10 * Z.abs (rb - x) * a (brick_var x y b rb)) (range nb_XSIZE)) nb_bricks)
          (range nb_YSIZE)) (range nb_XSIZE)) ∧
  NoDup (v_variables (v nb_XSIZE nb_YSIZE nb_bricks)) ∧
  (∀ var, var ∈ v_variables (v nb_XSIZE nb_YSIZE nb_bricks) ↔
     ∃ x y b rb, x ∈ range nb_XSIZE ∧ y ∈ range nb_YSIZE ∧ b ∈ nb_bricks ∧
                 rb ∈ range nb_XSIZE ∧ var = LpVar x y b rb 0 1 LpInteger) ∧
  (∀ var, var ∈ variables nb_program ↔
          var ∈ v_variables (v nb_XSIZE nb_YSIZE nb_bricks)) ∧
  length (v_variables (v nb_XSIZE nb_YSIZE nb_bricks)) =
    (nb_XSIZE * nb_YSIZE * length (remove_dups nb_bricks) * nb_XSIZE)%nat ∧
  length (v_variables (v nb_XSIZE nb_YSIZE nb_bricks)) =
    (nb_XSIZE * nb_YSIZE * length nb_bricks * nb_XSIZE)%nat.
Proof.
  destruct (objective_and_variable_domain nb_XSIZE nb_YSIZE nb_bricks nb_pairs
              nb_program) as (H1 & H2 & H3 & H4 & H5 & H6 & H7 & H8); [by_evaluation|].
  split; [exact H1|]. split; [exact H2|]. split; [exact H3|]. split; [exact H4|].
  split; [exact H5|]. split; [exact H6|]. split; [exact H7|].
  apply H8. by_evaluation.
Defined.

(** * Further properties of the notebook's code *)

(** ** The list of positions *)

Lemma NoDup_positions X Y : NoDup (positions X Y).
Proof.
  unfold positions. apply NoDup_bind; [| |apply NoDup_range].
  - intros x1 x2 p _ _ (y1 & ->%list_elem_of_singleton & _)%list_elem_of_bind
      (y2 & Heq%list_elem_of_singleton & _)%list_elem_of_bind. by simplify_eq.
  - intros x _. apply NoDup_bind; [| |apply NoDup_range].
    + intros y1 y2 p _ _ ->%list_elem_of_singleton Heq%list_elem_of_singleton.
      by simplify_eq.
    + intros y _. apply NoDup_singleton.
Qed.

Lemma lookup_bind_const {A B} (f : A → list B) l k i j :
  (∀ x, x ∈ l → length (f x) = k) → (j < k)%nat →
  (l ≫= f) !! (i * k + j)%nat = l !! i ≫= (λ x, f x !! j).
Proof.
  revert i. induction l as [|x l IH]; intros i Hlen Hj; [done|].
  assert (length (f x) = k) as Hx by (apply Hlen; left).
  rewrite bind_cons. destruct i as [|i]; simpl.
  - by rewrite lookup_app_l by lia.
  - rewrite lookup_app_r by lia. rewrite Hx.
    replace (k + i * k + j - k)%nat with (i * k + j)%nat by lia.
    apply IH; [|done]. intros z Hz. apply Hlen. by right.
Qed.

Lemma lookup_range n i : (i < n)%nat → range n !! i = Some (Z.of_nat i).
Proof. intros Hi. unfold range. by rewrite lookup_seqZ_lt by lia. Qed.

(** X1: [positions] lists every cell of the grid exactly once, column by
    column ([x] outer, [y] inner): cell [(i, j)] stands at index
    [i*YSIZE + j], and there are [XSIZE*YSIZE] cells. *)
Theorem positions_cells X Y :
  NoDup (positions X Y) ∧
  length (positions X Y) = (X * Y)%nat ∧
  (∀ x y, (x, y) ∈ positions X Y ↔ 0 ≤ x < Z.of_nat X ∧ 0 ≤ y < Z.of_nat Y) ∧
  (∀ i j, (i < X)%nat → (j < Y)%nat →
     positions X Y !! (i * Y + j)%nat = Some (Z.of_nat i, Z.of_nat j)).
Proof.
  split; [apply NoDup_positions|]. split; [apply length_positions|]. split.
  - intros x y. by rewrite elem_of_positions, !elem_of_range.
  - intros i j Hi Hj. unfold positions. rewrite (lookup_bind_const _ _ Y); [| |done].
    + rewrite lookup_range by done. simpl.
      replace j with (j * 1 + 0)%nat at 1 by lia.
      rewrite (lookup_bind_const _ _ 1%nat); [|done|lia].
      by rewrite lookup_range by done.
    + intros x _. rewrite (length_bind_const _ _ 1%nat), length_range; [lia|done].
Qed.

(** ** Subscripts of [v] *)

(** X2: [v[x][y][b][rb]] is the variable of that path when [x], [y] and
    [rb] are in range and [b] is a brick; otherwise it raises [KeyError]
    with the first index, from left to right, that is missing. *)
Theorem v_at_cases X Y bricks x y b rb :
  v_at X Y bricks x y b rb =
  if decide (x ∈ range X) then
    if decide (y ∈ range Y) then
      if decide (b ∈ bricks) then
        if decide (rb ∈ range X) then Ok (LpVar x y b rb 0 1 LpInteger)
        else Raise (KeyError (IntKey rb))
      else Raise (KeyError (StrKey b))
    else Raise (KeyError (IntKey y))
  else Raise (KeyError (IntKey x)).
Proof.
  unfold v_at, v, LpVariable_dicts.
  rewrite getitem_dict_of. destruct (decide (x ∈ range X)); [|done].
  rewrite bind_Ok, getitem_dict_of. destruct (decide (y ∈ range Y)); [|done].
  rewrite bind_Ok, getitem_dict_of. destruct (decide (b ∈ bricks)); [|done].
  rewrite bind_Ok, getitem_dict_of. by destruct (decide (rb ∈ range X)).
Qed.

(** ** The keys of [penalties] *)

Lemma penalties_list_to_map X :
  penalties X = list_to_map ((λ p, (p, penalty p.1 p.2)) <$> positions X X).
Proof.
  assert (((λ p : Z * Z, (p, penalty p.1 p.2)) <$> positions X X).*1 = positions X X)
    as Hfst.
  { rewrite <-list_fmap_compose. apply list_fmap_id. }
  apply map_eq. intros [x rb]. apply option_eq. intros c.
  rewrite lookup_penalties, <-elem_of_list_to_map
    by (rewrite Hfst; apply NoDup_positions).
  rewrite list_elem_of_fmap. split.
  - case_decide as Hin; [|done]. intros [= <-]. exists (x, rb).
    split; [done|]. by apply elem_of_positions.
  - intros ([x' rb'] & [= -> -> ->] & Hin%elem_of_positions).
    by rewrite decide_True.
Qed.

(** X3: [penalties] has exactly the keys [(x, rb)] with both in
    [0..XSIZE-1], [XSIZE*XSIZE] of them; any other key raises [KeyError].
    A penalty is between 0 and [10*(XSIZE-1)], and it is 0 only on the
    diagonal. *)
Theorem penalties_keys X :
  (∀ x rb, is_Some (penalties X !! (x, rb)) ↔
           0 ≤ x < Z.of_nat X ∧ 0 ≤ rb < Z.of_nat X) ∧
  size (penalties X) = (X * X)%nat ∧
  (∀ x rb, ¬ (0 ≤ x < Z.of_nat X ∧ 0 ≤ rb < Z.of_nat X) →
     getitem (penalties X) (x, rb) = Raise (KeyError (TupleKey x rb))) ∧
  (∀ x rb c, penalties X !! (x, rb) = Some c →
     0 ≤ c ≤ 10 * (Z.of_nat X - 1) ∧ (c = 0 ↔ x = rb)).
Proof.
  split_and!.
  - intros x rb. rewrite lookup_penalties, <-!elem_of_range.
    case_decide; [by split|]. split; [by intros [??]|done].
  - rewrite penalties_list_to_map, map_size_list_to_map.
    + by rewrite length_fmap, length_positions.
    + rewrite <-list_fmap_compose, list_fmap_id. apply NoDup_positions.
  - intros x rb Hout. unfold getitem. rewrite lookup_penalties, decide_False; [done|].
    by rewrite !elem_of_range.
  - intros x rb c. rewrite lookup_penalties.
    case_decide as Hin; [|done]. rewrite !elem_of_range in Hin.
    intros [= <-]. unfold penalty. lia.
Qed.

(** ** How many constraints *)

Lemma range_snoc n : range (S n) = range n ++ [Z.of_nat n].
Proof.
  unfold range. replace (Z.of_nat (S n)) with (Z.of_nat n + 1) by lia.
  rewrite seqZ_app by lia. f_equal.
Qed.

(** The [rb] below [x] among the first [n] columns *)
Lemma length_below (c : Z → LpConstraint) (x : Z) n :
  0 ≤ x →
  length (rb ← range n; if decide (x > rb) then [c rb] else []) =
  Z.to_nat (Z.min x (Z.of_nat n)).
Proof.
  intros Hx. induction n as [|n IH]; [simpl; lia|].
  rewrite range_snoc, bind_app, length_app, IH, bind_singleton.
  case_decide; simpl; lia.
Qed.

Lemma length_triangle (g : Z → list LpConstraint) n :
  (∀ x, x ∈ range n → length (g x) = Z.to_nat x) →
  (2 * length (range n ≫= g) = n * (n - 1))%nat.
Proof.
  induction n as [|n IH]; intros Hg; [done|].
  rewrite range_snoc, bind_app, length_app, bind_singleton.
  rewrite Hg by (apply elem_of_range; lia).
  assert (2 * length (range n ≫= g) = n * (n - 1))%nat as Hn.
  { apply IH. intros x Hx. apply Hg. apply elem_of_range.
    apply elem_of_range in Hx. lia. }
  destruct n as [|n]; simpl in *; lia.
Qed.

Lemma length_boundary X Y bricks :
  length (boundary X Y bricks) = (X * (X - 1) / 2)%nat.
Proof.
  apply Nat.div_unique_exact; [done|]. symmetry. unfold boundary.
  apply length_triangle. intros x Hx%elem_of_range.
  rewrite length_below by lia. lia.
Qed.

(** X4: the built program has one Occupancy constraint per cell, one
    Placement constraint per brick, one Anchor boundary constraint per
    pair of columns [rb < x], and one Color cohesion constraint per pair
    and column, in that order:
    [XSIZE*YSIZE + len(bricks) + XSIZE*(XSIZE-1)/2 + len(pairs)*XSIZE]
    constraints in all. *)
Theorem constraint_count X Y bricks pairs m :
  build X Y bricks pairs = Ok m →
  constraints m = occupancy X Y bricks ++ placement X Y bricks ++
                  boundary X Y bricks ++ cohesion X Y pairs ∧
  length (occupancy X Y bricks) = (X * Y)%nat ∧
  length (placement X Y bricks) = length bricks ∧
  length (boundary X Y bricks) = (X * (X - 1) / 2)%nat ∧
  length (cohesion X Y pairs) = (length pairs * X)%nat ∧
  length (constraints m) =
    (X * Y + length bricks + X * (X - 1) / 2 + length pairs * X)%nat.
Proof.
  intros [-> _]%build_Ok_inv.
  assert (length (occupancy X Y bricks) = (X * Y)%nat) as Hocc.
  { unfold occupancy. rewrite (length_bind_const _ _ 1%nat), length_positions; [lia|].
    by intros [x y] _. }
  assert (length (placement X Y bricks) = length bricks) as Hpl.
  { unfold placement. rewrite (length_bind_const _ _ 1%nat); [lia|done]. }
  assert (length (cohesion X Y pairs) = (length pairs * X)%nat) as Hcoh.
  { unfold cohesion. apply length_bind_const. intros [b1 b2] _.
    rewrite (length_bind_const _ _ 1%nat), length_range; [lia|done]. }
  pose proof (length_boundary X Y bricks) as Hbd.
  split_and!; [done..|].
  unfold program. cbn [constraints].
  rewrite !length_app, Hocc, Hpl, Hbd, Hcoh. by rewrite !Nat.add_assoc.
Qed.

Lemma constraint_count_witness :
  constraints nb_program =
    occupancy nb_XSIZE nb_YSIZE nb_bricks ++ placement nb_XSIZE nb_YSIZE nb_bricks ++
    boundary nb_XSIZE nb_YSIZE nb_bricks ++ cohesion nb_XSIZE nb_YSIZE nb_pairs ∧
  length (occupancy nb_XSIZE nb_YSIZE nb_bricks) = (nb_XSIZE * nb_YSIZE)%nat ∧
  length (placement nb_XSIZE nb_YSIZE nb_bricks) = length nb_bricks ∧
  length (boundary nb_XSIZE nb_YSIZE nb_bricks) = (nb_XSIZE * (nb_XSIZE - 1) / 2)%nat ∧
  length (cohesion nb_XSIZE nb_YSIZE nb_pairs) = (length nb_pairs * nb_XSIZE)%nat ∧
  length (constraints nb_program) =
    (nb_XSIZE * nb_YSIZE + length nb_bricks + nb_XSIZE * (nb_XSIZE - 1) / 2 +
     length nb_pairs * nb_XSIZE)%nat.
Proof.
  apply (constraint_count nb_XSIZE nb_YSIZE nb_bricks nb_pairs nb_program).
  by_evaluation.
Defined.

(** ** Colour groups *)

Lemma anchor_of_ext X Y a b1 b2 :
  (∀ rb, rb ∈ range X → column_sum X Y a b1 rb = column_sum X Y a b2 rb) →
  anchor_of X Y a b1 = anchor_of X Y a b2.
Proof.
  intros Hcol. unfold anchor_of. f_equal. apply list_find_ext_in.
  intros rb Hrb. by rewrite Hcol.
Qed.

(** X5: cohesion reaches across chains of pairs, in either direction of
    each pair: two bricks linked by the pairs list have the same column
    sums for every [rb], hence the same anchor column, in every feasible
    assignment of the built program. *)
Theorem same_group_same_anchor X Y bricks pairs m a b1 b2 :
  build X Y bricks pairs = Ok m → feasible m a →
  rtsc (λ b b', (b, b') ∈ pairs) b1 b2 →
  (∀ rb, rb ∈ range X → column_sum X Y a b1 rb = column_sum X Y a b2 rb) ∧
  anchor_of X Y a b1 = anchor_of X Y a b2.
Proof.
  intros [-> _]%build_Ok_inv Hfeas Hlink.
  assert (∀ rb, rb ∈ range X → column_sum X Y a b1 rb = column_sum X Y a b2 rb)
    as Hcol.
  { induction Hlink as [b|b b' b'' [Hbb|Hbb] _ IH]; [done| |];
      intros rb Hrb; rewrite <-IH by done.
    - by apply (feasible_cohesion X Y bricks pairs a Hfeas).
    - symmetry. by apply (feasible_cohesion X Y bricks pairs a Hfeas). }
  split; [done|]. by apply anchor_of_ext.
Qed.

Lemma same_group_same_anchor_witness :
  (∀ rb, rb ∈ range nb_XSIZE →
     column_sum nb_XSIZE nb_YSIZE nb_value "c4" rb =
     column_sum nb_XSIZE nb_YSIZE nb_value "c1" rb) ∧
  anchor_of nb_XSIZE nb_YSIZE nb_value "c4" = anchor_of nb_XSIZE nb_YSIZE nb_value "c1".
Proof.
  apply (same_group_same_anchor nb_XSIZE nb_YSIZE nb_bricks nb_pairs nb_program
           nb_value "c4" "c1"); [by_evaluation..|].
  apply rtsc_rl. by_evaluation.
Defined.

(** ** The objective of a feasible assignment *)

Section cost.
Context (X Y : nat) (bricks : list string) (pairs : list (string * string)).
Context (a : LpVariable → Z).
Hypothesis Hfeas : feasible (program X Y bricks pairs) a.

Lemma feasible_le_anchor x y b rb :
  (x, y) ∈ positions X Y → b ∈ bricks → rb ∈ range X →
  a (brick_var x y b rb) = 1 → x ≤ rb.
Proof using Hfeas.
  intros [Hx Hy]%elem_of_positions Hb Hrb Hone.
  destruct (decide (x ≤ rb)) as [|Hgt]; [done|]. exfalso.
  assert (a (brick_var x y b rb) = 0); [|lia].
  apply (sumZ_zero_inv (λ c, a (brick_var x c.1 c.2 rb)) (column Y bricks))
    with (x := (y, b)).
  - intros [y' b'] [Hy' Hb']%elem_of_column. simpl.
    apply (feasible_bounds X Y bricks pairs a Hfeas); [|done..].
    by apply elem_of_positions.
  - apply (feasible_boundary X Y bricks pairs a Hfeas); [done..|lia].
  - by apply elem_of_column.
Qed.

Lemma brick_place_anchor x y b rb :
  (x, y) ∈ positions X Y → b ∈ bricks → rb ∈ range X →
  a (brick_var x y b rb) = 1 → anchor_of X Y a b = Some rb.
Proof using Hfeas.
  intros Hp Hb Hrb Hone.
  destruct (anchor_unique X Y bricks pairs a Hfeas b Hb) as (rb0 & Hrb0 & Hanchor & Hiff).
  rewrite Hanchor. f_equal. symmetry. apply Hiff; [done|].
  assert (1 ≤ column_sum X Y a b rb) as Hge.
  { rewrite <-Hone. unfold column_sum.
    apply (sumZ_elem_le (λ p, a (brick_var p.1 p.2 b rb))) with (x := (x, y)); [|done].
    intros [x' y'] Hp'. by apply (feasible_bounds X Y bricks pairs a Hfeas). }
  assert (column_sum X Y a b rb ≤ 1); [|lia].
  rewrite <-(column_sums_total X Y bricks pairs a Hfeas b Hb).
  apply (sumZ_elem_le (column_sum X Y a b)); [|done].
  intros rb' Hrb'. by apply (column_sum_nonneg X Y bricks pairs a Hfeas).
Qed.
End cost.

(** A weighted sum over a 0/1 family with exactly one 1 *)
Lemma sumZ_weighted_one {A} (f w : A → Z) (l : list A) x0 :
  (∀ x, x ∈ l → 0 ≤ f x) → sumZ f l = 1 → x0 ∈ l → f x0 = 1 →
  sumZ (λ x, w x * f x) l = w x0.
Proof.
  induction l as [|z l IH]; intros Hpos Hsum Hx0 Hone;
    [by apply not_elem_of_nil in Hx0|].
  simpl in *.
  assert (0 ≤ f z) by (apply Hpos; left).
  assert (∀ x, x ∈ l → 0 ≤ f x) as Hl by (intros x Hx; apply Hpos; by right).
  pose proof (sumZ_nonneg f l Hl).
  destruct (decide (f z = 0)) as [Hz|Hz].
  - rewrite Hz, Z.mul_0_r, Z.add_0_l. apply IH; [done|lia| |done].
    apply elem_of_cons in Hx0 as [->|?]; [lia|done].
  - assert (sumZ f l = 0) as Hrest by lia.
    assert (x0 = z) as ->.
    { apply elem_of_cons in Hx0 as [?|Hx0]; [done|].
      pose proof (sumZ_zero_inv f l Hl x0 Hrest Hx0). lia. }
    rewrite Hone, Z.mul_1_r.
    rewrite (sumZ_ext _ (λ _, 0)); [rewrite sumZ_zeros; lia|].
    intros y Hy. rewrite (sumZ_zero_inv f l Hl y Hrest Hy). lia.
Qed.

Lemma objective_by_brick X Y bricks a :
  eval a (objective_terms X Y bricks) =
  sumZ (λ b, sumZ (λ t, penalty t.1.1 t.2 * a (brick_var t.1.1 t.1.2 b t.2))
                  (places X Y)) bricks.
Proof.
  unfold objective_terms. rewrite eval_fmap. unfold tuples, places.
  rewrite sumZ_bind.
  rewrite (sumZ_ext _ (λ p, sumZ (λ b, sumZ (λ rb,
            penalty p.1 rb * a (brick_var p.1 p.2 b rb)) (range X)) bricks)).
  - rewrite sumZ_swap. apply sumZ_ext. intros b _. rewrite sumZ_bind.
    apply sumZ_ext. intros [x y] _. rewrite sumZ_bind.
    apply sumZ_ext. intros rb _. simpl. lia.
  - intros [x y] _. rewrite sumZ_bind. apply sumZ_ext. intros b _.
    rewrite sumZ_bind. apply sumZ_ext. intros rb _. simpl. lia.
Qed.

(** X6: in a feasible assignment of the built program every brick has a
    cell [(x, y)] and an anchor [rb] with [x <= rb], and the objective
    value is the sum over the bricks of [10 * (rb - x)]: ten times the
    total number of columns between the bricks and their anchors. *)
Theorem objective_value_feasible X Y bricks pairs m a :
  build X Y bricks pairs = Ok m → feasible m a →
  objective_value a m = sumZ (brick_cost X Y a) bricks ∧
  ∀ b, b ∈ bricks →
    ∃ x y rb, cell_of X Y a b = Some (x, y) ∧ anchor_of X Y a b = Some rb ∧
              x ≤ rb ∧ brick_cost X Y a b = 10 * (rb - x).
Proof.
  intros [-> _]%build_Ok_inv Hfeas.
  assert (∀ b, b ∈ bricks →
    ∃ x y rb, ((x, y) ∈ positions X Y ∧ rb ∈ range X ∧ a (brick_var x y b rb) = 1) ∧
              cell_of X Y a b = Some (x, y) ∧ anchor_of X Y a b = Some rb ∧
              x ≤ rb ∧ brick_cost X Y a b = 10 * (rb - x)) as Hbrick.
  { intros b Hb.
    destruct (brick_unique_place X Y bricks pairs a Hfeas b Hb)
      as (x & y & rb & Hp & Hrb & Hone & _).
    pose proof (cell_of_spec X Y bricks pairs a Hfeas b x y rb Hb Hp Hrb Hone) as Hcell.
    pose proof (brick_place_anchor X Y bricks pairs a Hfeas x y b rb Hp Hb Hrb Hone)
      as Hanchor.
    exists x, y, rb. split_and!; [done..| |].
    - by eapply feasible_le_anchor.
    - unfold brick_cost. by rewrite Hcell, Hanchor. }
  split.
  - unfold objective_value, program. cbn [objective]. rewrite objective_by_brick.
    apply sumZ_ext. intros b Hb.
    destruct (Hbrick b Hb) as (x & y & rb & (Hp & Hrb & Hone) & _ & _ & Hle & ->).
    rewrite (sumZ_weighted_one (λ t, a (brick_var t.1.1 t.1.2 b t.2))
               (λ t, penalty t.1.1 t.2) (places X Y) (x, y, rb)).
    + unfold penalty. simpl. lia.
    + intros [[x' y'] rb'] [Hp' Hrb']%elem_of_places.
      by apply (feasible_bounds X Y bricks pairs a Hfeas).
    + by apply (feasible_placement X Y bricks pairs a Hfeas).
    + by apply elem_of_places.
    + done.
  - intros b Hb. destruct (Hbrick b Hb) as (x & y & rb & _ & H). by exists x, y, rb.
Qed.

Lemma objective_value_feasible_witness :
  objective_value nb_value nb_program = sumZ (brick_cost nb_XSIZE nb_YSIZE nb_value) nb_bricks ∧
  ∀ b, b ∈ nb_bricks →
    ∃ x y rb, cell_of nb_XSIZE nb_YSIZE nb_value b = Some (x, y) ∧
              anchor_of nb_XSIZE nb_YSIZE nb_value b = Some rb ∧
              x ≤ rb ∧ brick_cost nb_XSIZE nb_YSIZE nb_value b = 10 * (rb - x).
Proof.
  apply (objective_value_feasible nb_XSIZE nb_YSIZE nb_bricks nb_pairs nb_program
           nb_value); by_evaluation.
Defined.

(** ** Every brick is printed once *)

Lemma display_feasible X Y bricks pairs a :
  feasible (program X Y bricks pairs) a →
  display X Y bricks a = Ok (grid_lines X Y bricks a).
Proof.
  intros Hfeas. rewrite display_Ok. f_equal. unfold printed_lines, grid_lines.
  apply list_fmap_ext. intros i y Hy%list_elem_of_lookup_2. f_equal.
  apply list_fmap_ext. intros j x Hx%list_elem_of_lookup_2. f_equal.
  apply (cell_text X Y bricks pairs a Hfeas). by apply elem_of_positions.
Qed.

Lemma fmt_not_empty c : fmt c ≠ "".
Proof. unfold fmt. by destruct c as [[|ch b] rb]. Qed.

Lemma render_blank c : render c = "" ↔ c = None.
Proof.
  destruct c as [c|]; simpl; [|done].
  split; [|done]. intros Hc. by apply fmt_not_empty in Hc.
Qed.

(** X10: for a feasible assignment of the built program the display
    prints the grid whose cell [(x, y)] reads [render (placement_at x y)];
    in it every brick [b] is the text [b[rb]] of exactly one cell, and
    exactly [len(bricks)] cells of the grid are not blank. *)
Theorem each_brick_printed_once X Y bricks pairs m a :
  build X Y bricks pairs = Ok m → feasible m a →
  display X Y bricks a =
    Ok ((λ y, join ((λ x, render (placement_at X bricks a x y) +:+ tab) <$> range X))
          <$> range Y) ∧
  (∀ b, b ∈ bricks →
     ∃ x y rb, (x, y) ∈ positions X Y ∧
       placement_at X bricks a x y = Some (b, rb) ∧
       render (placement_at X bricks a x y) = b +:+ "[" +:+ str rb +:+ "]" ∧
       ∀ x' y' rb', (x', y') ∈ positions X Y →
         placement_at X bricks a x' y' = Some (b, rb') →
         x' = x ∧ y' = y ∧ rb' = rb) ∧
  length (filter (λ p, render (placement_at X bricks a p.1 p.2) ≠ "") (positions X Y))
    = length bricks.
Proof.
  intros [-> _]%build_Ok_inv Hfeas. split; [by eapply display_feasible|]. split.
  - intros b Hb.
    destruct (brick_unique_place X Y bricks pairs a Hfeas b Hb)
      as (x & y & rb & Hp & Hrb & Hone & Huniq).
    assert (placement_at X bricks a x y = Some (b, rb)) as Hat
      by (by apply (placement_at_Some X Y bricks pairs a Hfeas)).
    exists x, y, rb. split_and!; [done|done|by rewrite Hat|].
    intros x' y' rb' Hp' Hat'.
    apply (placement_at_Some X Y bricks pairs a Hfeas) in Hat' as (_ & Hrb' & Hone');
      [|done].
    apply Huniq; [done..|lia].
  - destruct (feasible_cells X Y bricks pairs a Hfeas) as (Hnd & <- & Hsub).
    apply Permutation_length. apply NoDup_Permutation; [|done|].
    { apply NoDup_filter, NoDup_positions. }
    intros [x y]. rewrite list_elem_of_filter, render_blank. simpl. split.
    + intros [Hsome Hp].
      destruct (placement_at X bricks a x y) as [[b rb]|] eqn:Hat; [|done].
      apply (placement_at_Some X Y bricks pairs a Hfeas) in Hat as (Hb & Hrb & Hone);
        [|done].
      apply list_elem_of_omap. exists b. split; [done|]. by eapply cell_of_spec.
    + intros (b & Hb & Hcell)%list_elem_of_omap.
      pose proof Hcell as [Hp (rb & Hrb & Hone)%Exists_exists]%list_find_Some_elem.
      split; [|done].
      by rewrite (proj2 (placement_at_Some X Y bricks pairs a Hfeas x y b rb Hp)).
Qed.

Lemma each_brick_printed_once_witness :
  display nb_XSIZE nb_YSIZE nb_bricks nb_value =
    Ok ((λ y, join ((λ x, render (placement_at nb_XSIZE nb_bricks nb_value x y) +:+ tab)
                      <$> range nb_XSIZE)) <$> range nb_YSIZE) ∧
  (∀ b, b ∈ nb_bricks →
     ∃ x y rb, (x, y) ∈ positions nb_XSIZE nb_YSIZE ∧
       placement_at nb_XSIZE nb_bricks nb_value x y = Some (b, rb) ∧
       render (placement_at nb_XSIZE nb_bricks nb_value x y)
         = b +:+ "[" +:+ str rb +:+ "]" ∧
       ∀ x' y' rb', (x', y') ∈ positions nb_XSIZE nb_YSIZE →
         placement_at nb_XSIZE nb_bricks nb_value x' y' = Some (b, rb') →
         x' = x ∧ y' = y ∧ rb' = rb) ∧
  length (filter (λ p, render (placement_at nb_XSIZE nb_bricks nb_value p.1 p.2) ≠ "")
                 (positions nb_XSIZE nb_YSIZE)) = length nb_bricks.
Proof.
  apply (each_brick_printed_once nb_XSIZE nb_YSIZE nb_bricks nb_pairs nb_program
           nb_value); by_evaluation.
Defined.

(** ** Placements are feasible assignments *)

Lemma sumZ_indicator_le1 {A} (f : A → Z) (l : list A) :
  NoDup l → (∀ x, x ∈ l → f x = 0 ∨ f x = 1) →
  (∀ x y, x ∈ l → y ∈ l → f x = 1 → f y = 1 → x = y) → sumZ f l ≤ 1.
Proof.
  induction 1 as [|z l Hz Hnd IH]; intros Hbin Huniq; simpl; [lia|].
  assert (sumZ f l ≤ 1) as Hl.
  { apply IH; [intros x Hx; apply Hbin; by right|].
    intros x y Hx Hy. apply Huniq; by right. }
  destruct (Hbin z) as [->| Hone]; [left|lia|].
  rewrite (sumZ_ext f (λ _, 0)); [rewrite sumZ_zeros; lia|].
  intros x Hx. destruct (Hbin x) as [?|Hx1]; [by right|done|].
  destruct Hz. rewrite (Huniq z x); [done|left|by right|done|done].
Qed.

Lemma sumZ_indicator_eq1 {A} (f : A → Z) (l : list A) x0 :
  NoDup l → (∀ x, x ∈ l → f x = 0 ∨ f x = 1) → x0 ∈ l → f x0 = 1 →
  (∀ x, x ∈ l → f x = 1 → x = x0) → sumZ f l = 1.
Proof.
  intros Hnd Hbin Hx0 Hone Huniq.
  assert (sumZ f l ≤ 1).
  { apply sumZ_indicator_le1; [done..|].
    intros x y Hx Hy Hfx Hfy. by rewrite (Huniq x), (Huniq y). }
  assert (f x0 ≤ sumZ f l); [|lia].
  apply sumZ_elem_le; [|done]. intros x Hx. destruct (Hbin x Hx); lia.
Qed.

Lemma NoDup_candidates X bricks : NoDup bricks → NoDup (candidates X bricks).
Proof.
  intros Hnd. unfold candidates. apply NoDup_bind; [| |done].
  - intros b1 b2 c _ _ (rb1 & ->%list_elem_of_singleton & _)%list_elem_of_bind
      (rb2 & Heq%list_elem_of_singleton & _)%list_elem_of_bind. by simplify_eq.
  - intros b _. apply NoDup_bind; [| |apply NoDup_range].
    + intros rb1 rb2 c _ _ ->%list_elem_of_singleton Heq%list_elem_of_singleton.
      by simplify_eq.
    + intros rb _. apply NoDup_singleton.
Qed.

Lemma NoDup_places X Y : NoDup (places X Y).
Proof.
  unfold places. apply NoDup_bind; [| |apply NoDup_positions].
  - intros [x1 y1] [x2 y2] t _ _ (rb1 & ->%list_elem_of_singleton & _)%list_elem_of_bind
      (rb2 & Heq%list_elem_of_singleton & _)%list_elem_of_bind. by simplify_eq.
  - intros [x y] _. apply NoDup_bind; [| |apply NoDup_range].
    + intros rb1 rb2 c _ _ ->%list_elem_of_singleton Heq%list_elem_of_singleton.
      by simplify_eq.
    + intros rb _. apply NoDup_singleton.
Qed.

Section placement.
Context (X Y : nat) (bricks : list string) (pairs : list (string * string)).
Context (pl : string → Z * Z * Z).
Hypothesis Hvalid : valid_placement X Y bricks pairs pl.

Lemma placement_assignment_var x y b rb :
  placement_assignment pl (brick_var x y b rb) = if decide (pl b = (x, y, rb)) then 1 else 0.
Proof. done. Qed.

Lemma placement_assignment_bin var : placement_assignment pl var = 0 ∨ placement_assignment pl var = 1.
Proof. unfold placement_assignment. case_decide; auto. Qed.

Lemma valid_in_grid b :
  b ∈ bricks → (pl b).1 ∈ positions X Y ∧ (pl b).2 ∈ range X ∧ (pl b).1.1 ≤ (pl b).2.
Proof using Hvalid.
  destruct Hvalid as (_ & Hgrid & _). rewrite Forall_forall in Hgrid. apply Hgrid.
Qed.

Lemma valid_distinct b1 b2 :
  b1 ∈ bricks → b2 ∈ bricks → (pl b1).1 = (pl b2).1 → b1 = b2.
Proof using Hvalid.
  destruct Hvalid as (_ & _ & Hdist & _). intros Hb1 Hb2.
  rewrite Forall_forall in Hdist. specialize (Hdist b1 Hb1).
  rewrite Forall_forall in Hdist. by apply Hdist.
Qed.

Lemma valid_known : positions X Y = [] ∨ Forall (λ bb, ¬ unknown_pair bricks bb) pairs.
Proof using Hvalid.
  destruct Hvalid as (_ & _ & _ & [Hnil|Hpairs]); [by left|right].
  eapply Forall_impl; [done|]. intros bb (? & ? & _) [?|?]; done.
Qed.

Lemma placement_column_sum b rb :
  b ∈ bricks →
  column_sum X Y (placement_assignment pl) b rb = if decide ((pl b).2 = rb) then 1 else 0.
Proof using Hvalid.
  intros Hb. destruct (valid_in_grid b Hb) as (Hp & _). unfold column_sum.
  destruct (pl b) as [[x y] rb0] eqn:Hpl. simpl in *. case_decide as Hrb.
  - subst rb0.
    apply (sumZ_indicator_eq1 _ _ (x, y)); [apply NoDup_positions| |done| |].
    + intros p _. apply placement_assignment_bin.
    + by rewrite placement_assignment_var, Hpl, decide_True.
    + intros [x' y'] _. rewrite placement_assignment_var, Hpl. simpl.
      case_decide; [by simplify_eq|done].
  - rewrite (sumZ_ext _ (λ _, 0)); [by rewrite sumZ_zeros|].
    intros [x' y'] _. rewrite placement_assignment_var, Hpl. simpl.
    rewrite decide_False; [done|]. intros [= -> -> ->]. done.
Qed.

Lemma placement_assignment_feasible :
  feasible (program X Y bricks pairs) (placement_assignment pl).
Proof using Hvalid.
  pose proof Hvalid as (Hnd & _ & _ & Hpairs).
  split.
  - apply Forall_forall. intros var Hvar.
    apply elem_of_variables_program in Hvar as (x & y & b & rb & _ & _ & _ & ->);
      [|apply valid_known].
    unfold in_bounds. simpl. destruct (placement_assignment_bin (brick_var x y b rb)); lia.
  - apply Forall_forall. intros k. simpl. rewrite !elem_of_app.
    intros [Hk|[Hk|[Hk|Hk]]].
    + apply list_elem_of_bind in Hk as ([x y] & ->%list_elem_of_singleton & Hp).
      unfold holds. cbn [csense lhs rhs]. rewrite eval_ones.
      apply sumZ_indicator_le1; [by apply NoDup_candidates| |].
      * intros c _. apply placement_assignment_bin.
      * intros [b1 rb1] [b2 rb2] [Hb1 _]%elem_of_candidates [Hb2 _]%elem_of_candidates.
        rewrite !placement_assignment_var. simpl.
        destruct (decide (pl b1 = (x, y, rb1))) as [H1|]; [|done].
        destruct (decide (pl b2 = (x, y, rb2))) as [H2|]; [|done].
        intros _ _. assert (b1 = b2) as ->.
        { apply valid_distinct; [done..|]. by rewrite H1, H2. }
        rewrite H1 in H2. by simplify_eq.
    + apply list_elem_of_bind in Hk as (b & ->%list_elem_of_singleton & Hb).
      unfold holds. cbn [csense lhs rhs]. rewrite eval_ones.
      destruct (valid_in_grid b Hb) as (Hp & Hrb & _).
      apply (sumZ_indicator_eq1 _ _ (pl b)); [apply NoDup_places| | | |].
      * intros t _. apply placement_assignment_bin.
      * destruct (pl b) as [[x y] rb]. by apply elem_of_places.
      * rewrite placement_assignment_var, decide_True; [done|].
        by destruct (pl b) as [[x y] rb].
      * intros [[x y] rb] _. rewrite placement_assignment_var. simpl.
        by case_decide.
    + apply list_elem_of_bind in Hk as (x & Hk & Hx).
      apply list_elem_of_bind in Hk as (rb & Hk & Hrb).
      case_decide as Hgt; [|by apply not_elem_of_nil in Hk].
      apply list_elem_of_singleton in Hk as ->.
      unfold holds. cbn [csense lhs rhs]. rewrite eval_ones.
      rewrite (sumZ_ext _ (λ _, 0)); [by rewrite sumZ_zeros|].
      intros [y b] [Hy Hb]%elem_of_column. rewrite placement_assignment_var. simpl.
      rewrite decide_False; [done|]. intros Hpl.
      destruct (valid_in_grid b Hb) as (_ & _ & Hle). rewrite Hpl in Hle. simpl in Hle.
      lia.
    + apply list_elem_of_bind in Hk as ([b1 b2] & Hk & Hbb).
      apply list_elem_of_bind in Hk as (rb & ->%list_elem_of_singleton & Hrb).
      unfold holds, cohesion_constraint. cbn [csense lhs rhs].
      rewrite eval_app, eval_ones, eval_neg_ones.
      fold (column_sum X Y (placement_assignment pl) b1 rb). fold (column_sum X Y (placement_assignment pl) b2 rb).
      destruct Hpairs as [Hnil|Hall].
      * unfold column_sum. rewrite Hnil. done.
      * rewrite Forall_forall in Hall. destruct (Hall _ Hbb) as (Hb1 & Hb2 & Heq).
        simpl in *. rewrite !placement_column_sum, Heq by done. lia.
Qed.
End placement.

(** X7: the encoding is complete.  For a placement of distinct bricks on
    distinct cells, each at or left of its anchor column and the two
    bricks of every pair on the same anchor, the program is built and
    the 0/1 assignment of the placement satisfies every bound and every
    constraint; reading that assignment back gives the placement. *)
Theorem placement_is_feasible X Y bricks pairs pl :
  valid_placement X Y bricks pairs pl →
  build X Y bricks pairs = Ok (program X Y bricks pairs) ∧
  feasible (program X Y bricks pairs) (placement_assignment pl) ∧
  ∀ b, b ∈ bricks →
    cell_of X Y (placement_assignment pl) b = Some (pl b).1 ∧
    anchor_of X Y (placement_assignment pl) b = Some (pl b).2.
Proof.
  intros Hvalid.
  pose proof (placement_assignment_feasible X Y bricks pairs pl Hvalid) as Hfeas.
  split; [apply build_Ok; by eapply valid_known|]. split; [done|].
  intros b Hb.
  destruct (valid_in_grid X Y bricks pairs pl Hvalid b Hb) as (Hp & Hrb & _).
  assert (placement_assignment pl (brick_var (pl b).1.1 (pl b).1.2 b (pl b).2) = 1)
    as Hone.
  { rewrite placement_assignment_var, decide_True; [done|].
    by destruct (pl b) as [[x y] rb]. }
  destruct (pl b) as [[x y] rb]. simpl in *. split.
  - by eapply cell_of_spec.
  - by eapply brick_place_anchor.
Qed.

Lemma placement_is_feasible_witness :
  build nb_XSIZE nb_YSIZE nb_bricks nb_pairs = Ok nb_program ∧
  feasible nb_program (placement_assignment nb_placement) ∧
  ∀ b, b ∈ nb_bricks →
    cell_of nb_XSIZE nb_YSIZE (placement_assignment nb_placement) b
      = Some (nb_placement b).1 ∧
    anchor_of nb_XSIZE nb_YSIZE (placement_assignment nb_placement) b
      = Some (nb_placement b).2.
Proof.
  apply (placement_is_feasible nb_XSIZE nb_YSIZE nb_bricks nb_pairs nb_placement).
  by_evaluation.
Defined.

(** ** When the program is feasible *)

Lemma default_placement_spec X Y bricks b :
  NoDup bricks → (length bricks ≤ X * Y)%nat → b ∈ bricks →
  ∃ i p, bricks !! i = Some b ∧ positions X Y !! i = Some p ∧
         default_placement X Y bricks b = (p, Z.of_nat X - 1).
Proof.
  intros Hnd Hroom Hb. unfold default_placement.
  destruct (list_find_elem_of (λ b', b' = b) bricks b Hb eq_refl) as [[i b'] Hfind].
  rewrite Hfind. apply list_find_Some in Hfind as (Hi & -> & _).
  destruct (lookup_lt_is_Some_2 (positions X Y) i) as [p Hp].
  { rewrite length_positions. apply lookup_lt_Some in Hi. lia. }
  rewrite Hp. by exists i, p.
Qed.

Lemma default_placement_valid X Y bricks pairs :
  NoDup bricks → (length bricks ≤ X * Y)%nat →
  positions X Y = [] ∨ Forall (λ bb, ¬ unknown_pair bricks bb) pairs →
  valid_placement X Y bricks pairs (default_placement X Y bricks).
Proof.
  intros Hnd Hroom Hknown.
  assert (∀ b, b ∈ bricks →
    (default_placement X Y bricks b).1 ∈ positions X Y ∧
    (default_placement X Y bricks b).2 = Z.of_nat X - 1 ∧
    (default_placement X Y bricks b).2 ∈ range X ∧
    (default_placement X Y bricks b).1.1 ≤ (default_placement X Y bricks b).2) as Hgrid.
  { intros b Hb.
    destruct (default_placement_spec X Y bricks b Hnd Hroom Hb) as (i & [x y] & _ & Hp & ->).
    apply list_elem_of_lookup_2 in Hp. pose proof Hp as [Hx _]%elem_of_positions.
    simpl. apply elem_of_range in Hx. rewrite elem_of_range. split_and!; [done|done|lia..]. }
  split_and!.
  - done.
  - apply Forall_forall. intros b Hb. destruct (Hgrid b Hb) as (? & _ & ? & ?). done.
  - apply Forall_forall. intros b1 Hb1. apply Forall_forall. intros b2 Hb2 Heq.
    destruct (default_placement_spec X Y bricks b1 Hnd Hroom Hb1)
      as (i1 & p1 & Hi1 & Hp1 & H1).
    destruct (default_placement_spec X Y bricks b2 Hnd Hroom Hb2)
      as (i2 & p2 & Hi2 & Hp2 & H2).
    rewrite H1, H2 in Heq. simpl in Heq. subst p2.
    assert (i1 = i2) as -> by (by eapply NoDup_lookup; [apply NoDup_positions|..]).
    congruence.
  - destruct Hknown as [?|Hall]; [by left|right].
    eapply Forall_impl; [done|]. intros [b1 b2] Hk. unfold unknown_pair in Hk.
    simpl in *.
    assert (b1 ∈ bricks) as Hb1.
    { destruct (decide (b1 ∈ bricks)); [done|]. destruct Hk. by left. }
    assert (b2 ∈ bricks) as Hb2.
    { destruct (decide (b2 ∈ bricks)); [done|]. destruct Hk. by right. }
    destruct (Hgrid b1 Hb1) as (_ & -> & _). destruct (Hgrid b2 Hb2) as (_ & -> & _).
    done.
Qed.

(** X8: a program that was built has a feasible assignment exactly when
    the bricks are pairwise distinct and there is a cell for each of
    them; the pairs never make it infeasible, since every brick may take
    the last column as its anchor. *)
Theorem feasible_iff_room X Y bricks pairs m :
  build X Y bricks pairs = Ok m →
  (∃ a, feasible m a) ↔ NoDup bricks ∧ (length bricks ≤ X * Y)%nat.
Proof.
  intros [-> Hknown]%build_Ok_inv. split.
  - intros [a Hfeas]. split.
    + by eapply feasible_NoDup_bricks.
    + by eapply feasible_capacity.
  - intros [Hnd Hroom]. exists (placement_assignment (default_placement X Y bricks)).
    apply placement_assignment_feasible. by apply default_placement_valid.
Qed.

Lemma feasible_iff_room_witness :
  (∃ a, feasible nb_program a) ↔
  NoDup nb_bricks ∧ (length nb_bricks ≤ nb_XSIZE * nb_YSIZE)%nat.
Proof.
  apply (feasible_iff_room nb_XSIZE nb_YSIZE nb_bricks nb_pairs nb_program).
  by_evaluation.
Defined.

(** ** Displaying an assignment without a 1 *)

Lemma fmap_const_replicate {A B} (c : B) (l : list A) :
  (λ _, c) <$> l = replicate (length l) c.
Proof. induction l as [|x l IH]; csimpl; [done|]. by rewrite IH. Qed.

(** X9: when no variable of the grid is 1 (an unsolved or all-zero
    assignment, or no bricks at all) the display prints [YSIZE] lines of
    [XSIZE] tabs each; in particular it prints nothing for [YSIZE = 0]
    and empty lines for [XSIZE = 0]. *)
Theorem display_blank X Y bricks a :
  (∀ x y b rb, x ∈ range X → y ∈ range Y → b ∈ bricks → rb ∈ range X →
     a (brick_var x y b rb) ≠ 1) →
  display X Y bricks a = Ok (replicate Y (join (replicate X tab))).
Proof.
  intros Hblank. rewrite display_Ok. f_equal. unfold printed_lines.
  rewrite <-(length_range Y) at 2. rewrite <-fmap_const_replicate.
  apply list_fmap_ext. intros i y Hy%list_elem_of_lookup_2. f_equal.
  rewrite <-(length_range X) at 2. rewrite <-fmap_const_replicate.
  apply list_fmap_ext. intros j x Hx%list_elem_of_lookup_2.
  assert (hits X bricks a x y = []) as ->; [|done].
  apply elem_of_nil_inv. intros [b rb] (Hb & Hrb & Hone)%elem_of_hits.
  by apply (Hblank x y b rb).
Qed.

Lemma display_blank_witness :
  display 2 1 ["a"; "b"] (λ _, 0) = Ok (replicate 1 (join (replicate 2 tab))).
Proof. apply (display_blank 2 1 ["a"; "b"] (λ _, 0)). intros; lia. Defined.
